(** * SbefBOTV2 chat front-end: a shallow embedding of its request
      orchestration, intent classifier, project library and view state.

    Sources embedded here:
    - [types.ts]                    the records [Message], [Project], the enum [Sender];
    - [services/geminiService.ts]   [generateImage], [sendMessageToGemini];
    - [App.tsx]                     [isImageGenerationRequest], [handleSendMessage],
                                    [handlePreview], [saveProject], [loadProject],
                                    [deleteProject] and the controls that call them;
    - [components/ChatMessage.tsx]  the effect that extracts [htmlCode] and the
                                    preview button it guards.

    JavaScript strings are sequences of UTF-16 code units; they are modelled
    as [list N].  Asynchronous functions are modelled as a small free monad
    over the two SDK calls, so that both the request that is sent and the
    code that runs once the call settles are visible. *)

From Stdlib Require Import List PeanoNat NArith Bool Ascii String Lia.
From Stdlib Require DecimalString.
Import ListNotations.

Local Open Scope N_scope.
Local Open Scope list_scope.

(* ================================================================== *)
(** ** JavaScript strings *)
(* ================================================================== *)

Module JS.

(** A string value: its UTF-16 code units. *)
Definition jsstring : Type := list N.

(** Source literals are written in UTF-8 and decoded to code units.  Code
    points above the basic plane become a surrogate pair, as in the engine. *)
Definition cont (b : N) : N := N.land b 0x3F.

Definition utf16_of_cp (cp : N) : jsstring :=
  if cp <? 0x10000 then [cp]
  else let v := cp - 0x10000 in
       [0xD800 + N.shiftr v 10; 0xDC00 + N.land v 0x3FF].

Fixpoint utf16_of_utf8 (bs : list N) : jsstring :=
  match bs with
  | [] => []
  | b1 :: r1 =>
    if b1 <? 0x80 then b1 :: utf16_of_utf8 r1
    else match r1 with
    | [] => [0xFFFD]
    | b2 :: r2 =>
      if b1 <? 0xE0 then
        (N.shiftl (N.land b1 0x1F) 6 + cont b2) :: utf16_of_utf8 r2
      else match r2 with
      | [] => [0xFFFD]
      | b3 :: r3 =>
        if b1 <? 0xF0 then
          (N.shiftl (N.land b1 0x0F) 12 + N.shiftl (cont b2) 6 + cont b3)
            :: utf16_of_utf8 r3
        else match r3 with
        | [] => [0xFFFD]
        | b4 :: r4 =>
          utf16_of_cp (N.shiftl (N.land b1 0x07) 18 + N.shiftl (cont b2) 12
                       + N.shiftl (cont b3) 6 + cont b4)
            ++ utf16_of_utf8 r4
        end
      end
    end
  end.

Definition bytes_of (s : string) : list N :=
  map N_of_ascii (list_ascii_of_string s).

(** [js "..."] is the string value denoted by a source literal. *)
Definition js (s : string) : jsstring := utf16_of_utf8 (bytes_of s).

(** [s === t] on strings. *)
Fixpoint str_eqb (s t : jsstring) : bool :=
  match s, t with
  | [], [] => true
  | a :: s', b :: t' => (a =? b) && str_eqb s' t'
  | _, _ => false
  end.

(** ToBoolean on a string: only the empty string is falsy. *)
Definition truthy (s : jsstring) : bool :=
  match s with [] => false | _ :: _ => true end.

(** ToBoolean on [string | null | undefined]. *)
Definition truthy_opt (o : option jsstring) : bool :=
  match o with Some s => truthy s | None => false end.

(** [a || b] on strings. *)
Definition or_else (a b : jsstring) : jsstring := if truthy a then a else b.

(** [s.startsWith(k)]. *)
Fixpoint startsWith (s k : jsstring) : bool :=
  match k, s with
  | [], _ => true
  | _ :: _, [] => false
  | a :: k', b :: s' => (a =? b) && startsWith s' k'
  end.

(** [s.includes(k)]: [k] occurs in [s] at some position. *)
Fixpoint includes (s k : jsstring) : bool :=
  startsWith s k ||
  match s with
  | [] => false
  | _ :: s' => includes s' k
  end.

(** WhiteSpace and LineTerminator code points, the ones [trim] strips. *)
Definition isWhiteSpace (c : N) : bool :=
  ((0x09 <=? c) && (c <=? 0x0D)) || (c =? 0x20) || (c =? 0xA0)
  || (c =? 0x1680) || ((0x2000 <=? c) && (c <=? 0x200A))
  || (c =? 0x2028) || (c =? 0x2029) || (c =? 0x202F) || (c =? 0x205F)
  || (c =? 0x3000) || (c =? 0xFEFF).

Fixpoint trimStart (s : jsstring) : jsstring :=
  match s with
  | [] => []
  | c :: s' => if isWhiteSpace c then trimStart s' else s
  end.

Definition trimEnd (s : jsstring) : jsstring := rev (trimStart (rev s)).

(** [s.trim()]. *)
Definition trim (s : jsstring) : jsstring := trimEnd (trimStart s).

(** [n.toString()] for a non-negative integer. *)
Definition toString (n : N) : jsstring :=
  bytes_of (DecimalString.NilEmpty.string_of_uint (N.to_uint n)).

End JS.
Import JS.

(* ================================================================== *)
(** ** Case conversion *)
(* ================================================================== *)

(** [String.prototype.toLowerCase] and [toUpperCase] are engine built-ins:
    the locale-independent Unicode case conversion, applied code point by
    code point.  The embedding carries the Unicode mapping for the blocks
    that hold the alphabets of the four interface languages and of both
    keyword lists:

    - Basic Latin, Latin-1 Supplement, Latin Extended-A (U+0000..U+017F),
    - the schwa pair U+018F / U+0259 of Azerbaijani,
    - Cyrillic U+0400..U+045F.

    [in_case_table] delimits that range.  Outside it the model leaves code
    units unchanged, and no statement below relies on the model there. *)

Module Case.

Definition between (lo c hi : N) : bool := (lo <=? c) && (c <=? hi).

Definition in_case_table (c : N) : bool :=
  (c <=? 0x17F) || (c =? 0x18F) || (c =? 0x259) || between 0x400 c 0x45F.

(** Lower-case mapping of one code point. *)
Definition lower_cp (c : N) : jsstring :=
  if between 0x41 c 0x5A then [c + 32]                          (* A-Z *)
  else if between 0xC0 c 0xDE && negb (c =? 0xD7) then [c + 32] (* À-Þ but not × *)
  else if c =? 0x130 then [0x69; 0x307]                         (* İ: i + dot above *)
  else if between 0x100 c 0x137 && N.even c then [c + 1]
  else if between 0x139 c 0x148 && N.odd c then [c + 1]
  else if between 0x14A c 0x177 && N.even c then [c + 1]
  else if c =? 0x178 then [0xFF]                                (* Ÿ *)
  else if between 0x179 c 0x17E && N.odd c then [c + 1]
  else if c =? 0x18F then [0x259]                               (* Ə *)
  else if between 0x400 c 0x40F then [c + 80]
  else if between 0x410 c 0x42F then [c + 32]
  else [c].

(** Upper-case mapping of one code point. *)
Definition upper_cp (c : N) : jsstring :=
  if between 0x61 c 0x7A then [c - 32]                          (* a-z *)
  else if c =? 0xB5 then [0x39C]                                (* micro sign *)
  else if c =? 0xDF then [0x53; 0x53]                           (* ß: SS *)
  else if between 0xE0 c 0xFE && negb (c =? 0xF7) then [c - 32] (* à-þ but not ÷ *)
  else if c =? 0xFF then [0x178]                                (* ÿ *)
  else if between 0x101 c 0x12F && N.odd c then [c - 1]
  else if c =? 0x131 then [0x49]                                (* dotless ı: I *)
  else if between 0x133 c 0x137 && N.odd c then [c - 1]
  else if between 0x13A c 0x148 && N.even c then [c - 1]
  else if c =? 0x149 then [0x2BC; 0x4E]                         (* ŉ *)
  else if between 0x14B c 0x177 && N.odd c then [c - 1]
  else if between 0x17A c 0x17E && N.even c then [c - 1]
  else if c =? 0x17F then [0x53]                                (* long s *)
  else if c =? 0x259 then [0x18F]                               (* ə *)
  else if between 0x430 c 0x44F then [c - 32]
  else if between 0x450 c 0x45F then [c - 80]
  else [c].

(** [s.toLowerCase()]. *)
Definition toLowerCase (s : jsstring) : jsstring := flat_map lower_cp s.

(** [s.toUpperCase()]. *)
Definition toUpperCase (s : jsstring) : jsstring := flat_map upper_cp s.

(** A code point whose upper-casing is undone, up to case, by lower-casing,
    with every code unit involved inside the modelled range. *)
Definition case_stable (c : N) : bool :=
  in_case_table c
  && forallb in_case_table (upper_cp c)
  && str_eqb (toLowerCase (upper_cp c)) (lower_cp c).

End Case.
Import Case.

(* ================================================================== *)
(** ** types.ts *)
(* ================================================================== *)

Inductive Sender : Type :=
| USER   (* 'user' *)
| BOT.   (* 'model' *)

Definition Sender_eqb (a b : Sender) : bool :=
  match a, b with
  | USER, USER | BOT, BOT => true
  | _, _ => false
  end.

Record Message : Type := mkMessage {
  id         : jsstring;
  sender     : Sender;
  text       : jsstring;
  timestamp  : N;                  (* Date, as milliseconds *)
  isError    : option bool;
  attachment : option jsstring     (* base64 image *)
}.

Record Project : Type := mkProject {
  p_id        : jsstring;
  p_name      : jsstring;
  p_code      : jsstring;
  p_thumbnail : option jsstring;
  p_createdAt : N
}.

(* ================================================================== *)
(** ** The SDK surface used by the service *)
(* ================================================================== *)

Module Sdk.

Inductive Part : Type :=
| InlineData (mimeType data : jsstring)   (* { inlineData: { mimeType, data } } *)
| TextPart (t : jsstring).                (* { text } *)

Record Content : Type := mkContent {
  role  : jsstring;
  parts : list Part
}.

(** The argument of [generateContent].  The system instruction is the fixed
    template of [getSystemInstruction] filled with the language name, so the
    language stands for it; the sampling parameters are constants. *)
Record GenerateContentParameters : Type := mkGenerateContent {
  gc_model    : jsstring;
  gc_contents : list Content;
  gc_language : jsstring    (* the argument of getSystemInstruction *)
}.

Record GenerateContentResponse : Type := mkContentResponse {
  response_text : option jsstring
}.

Record GenerateImagesParameters : Type := mkGenerateImages {
  gi_model          : jsstring;
  gi_prompt         : jsstring;
  gi_numberOfImages : N;
  gi_outputMimeType : jsstring
}.

Record Image : Type := mkImage { imageBytes : option jsstring }.
Record GeneratedImage : Type := mkGeneratedImage { image : option Image }.
Record GenerateImagesResponse : Type := mkImagesResponse {
  generatedImages : option (list GeneratedImage)
}.

(** Thrown values. *)
Inductive exn : Type :=
| Error (message : jsstring)              (* new Error(message) *)
| TypeError (message : jsstring)          (* property read on undefined *)
| ApiFailure (message : option jsstring). (* whatever the transport rejects with *)

(** [error.message]. *)
Definition exn_message (e : exn) : option jsstring :=
  match e with
  | Error m | TypeError m => Some m
  | ApiFailure m => m
  end.

(** The two calls on [ai.models]. *)
Inductive Api : Type -> Type :=
| generateImages (req : GenerateImagesParameters) : Api GenerateImagesResponse
| generateContent (req : GenerateContentParameters) : Api GenerateContentResponse.

(** How an awaited call settles. *)
Inductive Settled (R : Type) : Type :=
| Fulfilled (r : R)
| Rejected (e : exn).
Arguments Fulfilled {R} r.
Arguments Rejected {R} e.

(** A transport: how each call settles. *)
Definition Transport : Type := forall R, Api R -> Settled R.

End Sdk.
Import Sdk.

(* ================================================================== *)
(** ** Asynchronous computations *)
(* ================================================================== *)

Module Async.

(** An [async] body: it returns, throws, or awaits a call and goes on. *)
Inductive Promise (A : Type) : Type :=
| Return (a : A)
| Throw (e : exn)
| Await (R : Type) (call : Api R) (k : Settled R -> Promise A).
Arguments Return {A} a.
Arguments Throw {A} e.
Arguments Await {A R} call k.

Fixpoint bind {A B} (p : Promise A) (f : A -> Promise B) : Promise B :=
  match p with
  | Return a => f a
  | Throw e => Throw e
  | Await call k => Await call (fun r => bind (k r) f)
  end.

(** [try { p } catch (error) { h error }]. *)
Fixpoint try_catch {A} (p : Promise A) (h : exn -> Promise A) : Promise A :=
  match p with
  | Return a => Return a
  | Throw e => h e
  | Await call k => Await call (fun r => try_catch (k r) h)
  end.

(** [await call]: the value when fulfilled, a throw when rejected. *)
Definition await {R} (call : Api R) : Promise R :=
  Await call (fun r => match r with
                       | Fulfilled v => Return v
                       | Rejected e => Throw e
                       end).

(** The outcome of a finished computation. *)
Inductive Completion (A : Type) : Type :=
| Returned (a : A)
| Threw (e : exn).
Arguments Returned {A} a.
Arguments Threw {A} e.

(** Running a computation against a transport. *)
Fixpoint run {A} (t : Transport) (p : Promise A) : Completion A :=
  match p with
  | Return a => Returned a
  | Throw e => Threw e
  | Await call k => run t (k (t _ call))
  end.

(** The first call a computation issues, if any. *)
Definition first_call {A} (p : Promise A) : option { R : Type & Api R } :=
  match p with
  | Await call _ => Some (existT _ _ call)
  | _ => None
  end.

End Async.
Import Async.

Declare Scope promise_scope.
Delimit Scope promise_scope with promise.
Notation "x <- p ;; q" := (bind p (fun x => q))
  (at level 61, p at next level, right associativity) : promise_scope.

(* ================================================================== *)
(** ** services/geminiService.ts *)
(* ================================================================== *)

Module GeminiService.

Local Open Scope promise_scope.

Definition TEXT_MODEL_NAME : jsstring := js "gemini-2.5-flash".
Definition IMAGE_MODEL_NAME : jsstring := js "imagen-4.0-generate-001".

Definition imageEmptyMessage : jsstring := js "Şəkil yaradıla bilmədi".
Definition imageBusyMessage : jsstring :=
  js "Şəkil serveri məşğuldur. Bir az sonra yoxlayın.".
Definition connectionLostMessage : jsstring :=
  js "Sistem xətası: SbefBOTV2 əlaqəni itirdi.".
Definition blockedNotice : jsstring :=
  js "Bağışlayın, təhlükəsizlik protokolu cavabı blokladı.".

Definition generateImages_request (prompt : jsstring) : GenerateImagesParameters :=
  {| gi_model := IMAGE_MODEL_NAME;
     gi_prompt := prompt;
     gi_numberOfImages := 1;
     gi_outputMimeType := js "image/jpeg" |}.

(** [response.generatedImages[0].image.imageBytes], after the emptiness test. *)
Definition first_image_bytes (response : GenerateImagesResponse)
  : Promise (option jsstring) :=
  match generatedImages response with
  | None | Some [] => Throw (Error imageEmptyMessage)
  | Some (g :: _) =>
    match image g with
    | None => Throw (TypeError (js "Cannot read properties of undefined"))
    | Some i => Return (imageBytes i)
    end
  end.

Definition generateImage (prompt : jsstring) : Promise (option jsstring) :=
  try_catch
    (response <- await (generateImages (generateImages_request prompt)) ;;
     first_image_bytes response)
    (fun error => Throw (Error imageBusyMessage)).

(** The callback of [history.map]. *)
Definition history_turn (msg : Message) : Content :=
  let parts1 :=
    if truthy_opt (attachment msg)
    then match attachment msg with
         | Some a => [InlineData (js "image/jpeg") a]
         | None => []
         end
    else [] in
  let parts2 :=
    if truthy (text msg) || negb (truthy_opt (attachment msg))
    then [TextPart (or_else (text msg) (js " "))]
    else [] in
  {| role := if Sender_eqb (sender msg) USER then js "user" else js "model";
     parts := parts1 ++ parts2 |}.

(** [currentParts]. *)
Definition currentParts (currentMessage : jsstring) (imageBase64 : option jsstring)
  : list Part :=
  (if truthy_opt imageBase64
   then match imageBase64 with
        | Some a => [InlineData (js "image/jpeg") a]
        | None => []
        end
   else [])
  ++ [TextPart currentMessage].

(** [contents] as handed to [generateContent]. *)
Definition build_contents (history : list Message) (currentMessage : jsstring)
    (imageBase64 : option jsstring) : list Content :=
  map history_turn history
  ++ [ {| role := js "user"; parts := currentParts currentMessage imageBase64 |} ].

Definition generateContent_request (history : list Message)
    (currentMessage : jsstring) (imageBase64 : option jsstring)
    (language : jsstring) : GenerateContentParameters :=
  {| gc_model := TEXT_MODEL_NAME;
     gc_contents := build_contents history currentMessage imageBase64;
     gc_language := language |}.

Definition sendMessageToGemini (history : list Message)
    (currentMessage : jsstring) (imageBase64 : option jsstring)
    (language : jsstring) : Promise jsstring :=
  try_catch
    (response <- await (generateContent
        (generateContent_request history currentMessage imageBase64 language)) ;;
     match response_text response with
     | Some t => if truthy t then Return t else Return blockedNotice
     | None => Return blockedNotice
     end)
    (fun error => Throw (Error connectionLostMessage)).

End GeminiService.
Import GeminiService.

(* ================================================================== *)
(** ** App.tsx: state and handlers *)
(* ================================================================== *)

Module App.

Local Open Scope promise_scope.

Inductive Language : Type := az | tr | en | ru.
Inductive View : Type := chat | projects | preview.

Definition View_eqb (a b : View) : bool :=
  match a, b with
  | chat, chat | projects, projects | preview, preview => true
  | _, _ => false
  end.

Definition WELCOME_MESSAGES (lang : Language) : jsstring :=
  match lang with
  | az => js "SbefBOTV2 sistemdədir. Tural Alıyev tərəfindən yeniləndi. Eşidirəm səni, nə lazımdır?"
  | tr => js "SbefBOTV2 devrede. Tural Alıyev tarafından güncellendi. Seni dinliyorum, ne yapalım?"
  | en => js "SbefBOTV2 Online. Upgraded by Tural Aliyev. I am listening, how can I assist?"
  | ru => js "SbefBOTV2 в сети. Обновлен Туралом Алыевым. Я слушаю, чем помочь?"
  end.

Definition SUGGESTIONS (lang : Language) : list jsstring :=
  match lang with
  | az => [js "Mənə lətifə danış"; js "Bakının gəfləcək şəklini yarat";
           js "Portfolio saytı düzəlt (Figma style)"; js "Həyatın mənası nədir?"]
  | tr => [js "Bana bir fıkra anlat"; js "İstanbul resmi çiz";
           js "Modern bir cafe sitesi yap"; js "Motivasyon sözü söyle"]
  | en => [js "Tell me a joke"; js "Generate a futuristic image";
           js "Create a startup landing page"; js "What is the meaning of life?"]
  | ru => [js "Расскажи шутку"; js "Нарисуй будущее";
           js "Создай сайт для ресторана"; js "В чем смысл жизни?"]
  end.

(** [langMap] of [handleSendMessage]. *)
Definition langMap (lang : Language) : jsstring :=
  match lang with
  | az => js "Azərbaycan dili"
  | tr => js "Türkçe"
  | en => js "English"
  | ru => js "Русский язык"
  end.

(** The [useState] cells of [App] that the handlers below read or write.
    The voice settings, the settings and debug overlays and the listening
    flag are separate cells that none of these handlers touches.  The cells
    [attachment] and [projects] carry a prime here: the plain names are the
    [Message] field and the [View] tag. *)
Record AppState : Type := mkApp {
  selectedLanguage : option Language;
  messages         : list Message;
  inputValue       : jsstring;
  isLoading        : bool;
  attachment'      : option jsstring;
  currentView      : View;
  projects'        : list Project;
  previewCode      : jsstring;
  projectNameInput : jsstring;
  showSaveDialog   : bool
}.

Definition initialState : AppState :=
  {| selectedLanguage := None; messages := []; inputValue := [];
     isLoading := false; attachment' := None; currentView := chat;
     projects' := []; previewCode := []; projectNameInput := [];
     showSaveDialog := false |}.

(** The state setters. [setMessages] and [setProjects] take an updater, as
    every call site passes one (or a constant). *)
Definition setSelectedLanguage (v : option Language) (s : AppState) : AppState :=
  mkApp v (messages s) (inputValue s) (isLoading s) (attachment' s)
        (currentView s) (projects' s) (previewCode s) (projectNameInput s)
        (showSaveDialog s).
Definition setMessages (f : list Message -> list Message) (s : AppState) : AppState :=
  mkApp (selectedLanguage s) (f (messages s)) (inputValue s) (isLoading s)
        (attachment' s) (currentView s) (projects' s) (previewCode s)
        (projectNameInput s) (showSaveDialog s).
Definition setInputValue (f : jsstring -> jsstring) (s : AppState) : AppState :=
  mkApp (selectedLanguage s) (messages s) (f (inputValue s)) (isLoading s)
        (attachment' s) (currentView s) (projects' s) (previewCode s)
        (projectNameInput s) (showSaveDialog s).
Definition setIsLoading (v : bool) (s : AppState) : AppState :=
  mkApp (selectedLanguage s) (messages s) (inputValue s) v (attachment' s)
        (currentView s) (projects' s) (previewCode s) (projectNameInput s)
        (showSaveDialog s).
Definition setAttachment (v : option jsstring) (s : AppState) : AppState :=
  mkApp (selectedLanguage s) (messages s) (inputValue s) (isLoading s) v
        (currentView s) (projects' s) (previewCode s) (projectNameInput s)
        (showSaveDialog s).
Definition setCurrentView (v : View) (s : AppState) : AppState :=
  mkApp (selectedLanguage s) (messages s) (inputValue s) (isLoading s)
        (attachment' s) v (projects' s) (previewCode s) (projectNameInput s)
        (showSaveDialog s).
Definition setProjects (f : list Project -> list Project) (s : AppState) : AppState :=
  mkApp (selectedLanguage s) (messages s) (inputValue s) (isLoading s)
        (attachment' s) (currentView s) (f (projects' s)) (previewCode s)
        (projectNameInput s) (showSaveDialog s).
Definition setPreviewCode (v : jsstring) (s : AppState) : AppState :=
  mkApp (selectedLanguage s) (messages s) (inputValue s) (isLoading s)
        (attachment' s) (currentView s) (projects' s) v (projectNameInput s)
        (showSaveDialog s).
Definition setProjectNameInput (v : jsstring) (s : AppState) : AppState :=
  mkApp (selectedLanguage s) (messages s) (inputValue s) (isLoading s)
        (attachment' s) (currentView s) (projects' s) (previewCode s) v
        (showSaveDialog s).
Definition setShowSaveDialog (v : bool) (s : AppState) : AppState :=
  mkApp (selectedLanguage s) (messages s) (inputValue s) (isLoading s)
        (attachment' s) (currentView s) (projects' s) (previewCode s)
        (projectNameInput s) v.

(** One synchronous reading of the clock: [Date.now()] and [new Date()]. *)
Record Clock : Type := mkClock { now : N; date : N }.

Definition handleLanguageSelect (lang : Language) (c : Clock) (s : AppState)
  : AppState :=
  setMessages (fun _ => [ {| id := js "welcome"; sender := BOT;
                             text := WELCOME_MESSAGES lang; timestamp := date c;
                             isError := None; attachment := None |} ])
    (setSelectedLanguage (Some lang) s).

(** *** The intent classifier *)

Definition keywords : list jsstring :=
  [js "yarat"; js "çək"; js "hazırla"; js "çiz"; js "oluştur"; js "tasarla";
   js "draw"; js "generate"; js "create"; js "paint"; js "нарисуй"; js "создай"].

Definition subjects : list jsstring :=
  [js "şəkil"; js "foto"; js "təsvir"; js "mənzərə"; js "resim"; js "görüntü";
   js "fotoğraf"; js "image"; js "picture"; js "photo"; js "картинку";
   js "изображение"].

Definition isImageGenerationRequest (text : jsstring) : bool :=
  let lowerText := toLowerCase text in
  existsb (fun k => includes lowerText k) keywords
  && existsb (fun s => includes lowerText s) subjects.

(** *** Sending a message *)

(** [textOverride || inputValue.trim()]. *)
Definition textToSend (textOverride : option jsstring) (s : AppState) : jsstring :=
  if truthy_opt textOverride
  then match textOverride with Some t => t | None => [] end
  else trim (inputValue s).

(** The guard that makes [handleSendMessage] return at once. *)
Definition send_refused (textOverride : option jsstring) (s : AppState) : bool :=
  (negb (truthy (textToSend textOverride s)) && negb (truthy_opt (attachment' s)))
  || isLoading s
  || match selectedLanguage s with None => true | Some _ => false end.

Definition newUserMessage (textOverride : option jsstring) (c : Clock)
    (s : AppState) : Message :=
  {| id := toString (now c);
     sender := USER;
     text := textToSend textOverride s;
     timestamp := date c;
     isError := None;
     attachment := if truthy_opt (attachment' s) then attachment' s else None |}.

(** Which service function the [try] block calls. *)
Definition takes_image_path (textOverride : option jsstring) (s : AppState) : bool :=
  isImageGenerationRequest (textToSend textOverride s)
  && negb (truthy_opt (attachment' s)).

(** What runs once the awaited call has settled: given a fresh clock
    reading, the update applied to the state of that moment. *)
Definition Reaction : Type := Clock -> AppState -> AppState.

Definition append_message (m : Message) : AppState -> AppState :=
  setMessages (fun prev => prev ++ [m]).

Definition errorText (error : exn) : jsstring :=
  match exn_message error with
  | Some m => or_else m (js "Sistem xətası.")
  | None => js "Sistem xətası."
  end.

(** The [try]/[catch] of [handleSendMessage]. *)
Definition send_task (textOverride : option jsstring) (c : Clock) (s : AppState)
    (lang : Language) : Promise Reaction :=
  let textToSend := textToSend textOverride s in
  let currentAttachment := attachment' s in
  let newUserMessage := newUserMessage textOverride c s in
  try_catch
    (if isImageGenerationRequest textToSend && negb (truthy_opt currentAttachment)
     then
       imageBytes <- generateImage textToSend ;;
       Return (fun c' => append_message
         {| id := toString (now c' + 1); sender := BOT;
            text := js "Buyur, istədiyin o mükəmməl təsvir:";
            timestamp := date c'; isError := None; attachment := imageBytes |})
     else
       responseText <- sendMessageToGemini (messages s ++ [newUserMessage])
                         textToSend currentAttachment (langMap lang) ;;
       Return (fun c' => append_message
         {| id := toString (now c' + 1); sender := BOT; text := responseText;
            timestamp := date c'; isError := None; attachment := None |}))
    (fun error =>
       Return (fun c' => append_message
         {| id := toString (now c' + 1); sender := BOT; text := errorText error;
            timestamp := date c'; isError := Some true; attachment := None |})).

(** [handleSendMessage] up to its first [await]: [None] when the guard
    returns; otherwise the state after the synchronous updates, and the
    suspended rest of the handler. *)
Definition handleSendMessage (textOverride : option jsstring) (c : Clock)
    (s : AppState) : option (AppState * Promise Reaction) :=
  if send_refused textOverride s then None
  else match selectedLanguage s with
  | None => None
  | Some lang =>
    let s' := setIsLoading true
                (append_message (newUserMessage textOverride c s)
                  (setAttachment None (setInputValue (fun _ => []) s))) in
    Some (s', send_task textOverride c s lang)
  end.

(** The rest of [handleSendMessage] once the transport [t] has answered,
    ending with the [finally] block. *)
Definition resume (t : Transport) (c' : Clock) (task : Promise Reaction)
    (s : AppState) : AppState :=
  setIsLoading false
    match run t task with
    | Returned reaction => reaction c' s
    | Threw _ => s
    end.

(** *** Preview and the project library *)

Definition handlePreview (code : jsstring) (s : AppState) : AppState :=
  setCurrentView preview (setPreviewCode code s).

Definition saveProject (c : Clock) (s : AppState) : AppState :=
  if negb (truthy (trim (projectNameInput s))) then s
  else
    let newProject :=
      {| p_id := toString (now c); p_name := projectNameInput s;
         p_code := previewCode s; p_thumbnail := None; p_createdAt := date c |} in
    setProjectNameInput []
      (setShowSaveDialog false
        (setProjects (fun prev => newProject :: prev) s)).

Definition loadProject (project : Project) (s : AppState) : AppState :=
  setCurrentView preview (setPreviewCode (p_code project) s).

Definition deleteProject (pid : jsstring) : AppState -> AppState :=
  setProjects (fun prev => filter (fun p => negb (str_eqb (p_id p) pid)) prev).

End App.
Import App.

(* ================================================================== *)
(** ** components/ChatMessage.tsx: the preview button *)
(* ================================================================== *)

Module ChatMessage.

(** [split_first s k]: the text before and after the first occurrence of
    [k] in [s]. *)
Fixpoint split_first (s k : jsstring) : option (jsstring * jsstring) :=
  if startsWith s k then Some ([], skipn (List.length k) s)
  else match s with
  | [] => None
  | c :: s' =>
    match split_first s' k with
    | Some (before, after) => Some (c :: before, after)
    | None => None
    end
  end.

Definition fence_open : jsstring := js "```html".
Definition fence_close : jsstring := js "```".

(** Group 1 of [text.match(/```html([\s\S]*?)```/)].  The pattern has no
    alternative at its head and a lazy body, so the match starts at the
    first opening fence and ends at the first closing fence after it; when
    no fence closes the first opening one, none closes a later one either. *)
Definition match_html (text : jsstring) : option jsstring :=
  match split_first text fence_open with
  | None => None
  | Some (_, rest) =>
    match split_first rest fence_close with
    | None => None
    | Some (body, _) => Some body
    end
  end.

(** The value the extraction effect leaves in the [htmlCode] cell, which
    starts as [null]. *)
Definition htmlCode (message : Message) : option jsstring :=
  let isUser := Sender_eqb (sender message) USER in
  if negb isUser && includes (text message) fence_open then
    match match_html (text message) with
    | Some m1 => if truthy m1 then Some (trim m1) else None
    | None => None
    end
  else if negb isUser && includes (text message) (js "<!DOCTYPE html>") then
    Some (text message)
  else None.

(** The preview button: rendered when [htmlCode && onPreview]; [App] always
    passes [onPreview].  The result is the argument its click hands over. *)
Definition preview_button (message : Message) : option jsstring :=
  match htmlCode message with
  | Some code => if truthy code then Some code else None
  | None => None
  end.

End ChatMessage.
Import ChatMessage.

(* ================================================================== *)
(** ** The interface as a transition system *)
(* ================================================================== *)

(** Every control of the rendered interface that calls one of the handlers
    above is an event.  An event is enabled exactly when its control is
    rendered: the language screen replaces everything while no language is
    selected, the header is hidden in the preview view, and each of
    [renderChat], [renderProjects], [renderPreview] is mounted only in its
    own view.  Callbacks of asynchronous browser services (file reader,
    speech recognition, the awaited SDK call) may fire in any view. *)

Module UI.

Record Session : Type := mkSession {
  app      : AppState;
  inflight : list (Promise Reaction)   (* suspended [handleSendMessage] calls *)
}.

Definition initialSession : Session := {| app := initialState; inflight := [] |}.

Inductive Event : Type :=
| SelectLanguage (lang : Language) (c : Clock)
| TypeInput (v : jsstring)                  (* onChange of the message input *)
| Dictate (speechResult : jsstring)         (* recognition.onresult *)
| FileLoaded (base64 : option jsstring)     (* reader.onloadend *)
| RemoveAttachment
| Submit (c : Clock)                        (* send button, or Enter *)
| Suggestion (i : nat) (c : Clock)
| Settle (i : nat) (t : Transport) (c : Clock)
| ClickPreview (i : nat)                    (* preview button of message i *)
| ClickProjects                             (* header button *)
| ClickBack                                 (* back buttons of both views *)
| ClickSaveProject                          (* opens the save dialog *)
| TypeProjectName (v : jsstring)
| ClickCancel
| ClickSave (c : Clock)
| ClickOpen (i : nat)
| ClickDelete (i : nat).

Definition with_app (u : Session) (s : AppState) : option Session :=
  Some {| app := s; inflight := inflight u |}.

(** Removes the task at position [i]. *)
Fixpoint take_task {A} (i : nat) (l : list A) : option (A * list A) :=
  match l, i with
  | [], _ => None
  | x :: l', O => Some (x, l')
  | x :: l', S i' =>
    match take_task i' l' with
    | Some (y, r) => Some (y, x :: r)
    | None => None
    end
  end.

Definition send (textOverride : option jsstring) (c : Clock) (u : Session)
  : option Session :=
  match handleSendMessage textOverride c (app u) with
  | None => Some u
  | Some (s', task) => Some {| app := s'; inflight := inflight u ++ [task] |}
  end.

Definition step (e : Event) (u : Session) : option Session :=
  let s := app u in
  match selectedLanguage s, e with
  | None, SelectLanguage lang c => with_app u (handleLanguageSelect lang c s)
  | _, SelectLanguage _ _ => None
  | _, Dictate speechResult =>
    with_app u (setInputValue
      (fun prev => prev ++ (if truthy prev then js " " else []) ++ speechResult) s)
  | _, FileLoaded base64 => with_app u (setAttachment base64 s)
  | _, Settle i t c =>
    match take_task i (inflight u) with
    | Some (task, rest) => Some {| app := resume t c task s; inflight := rest |}
    | None => None
    end
  | None, _ => None
  | Some lang, _ =>
    match currentView s, e with
    | chat, TypeInput v => with_app u (setInputValue (fun _ => v) s)
    | chat, RemoveAttachment =>
      if truthy_opt (attachment' s) then with_app u (setAttachment None s) else None
    | chat, Submit c => send None c u
    | chat, Suggestion i c =>
      if (Nat.ltb (List.length (messages s)) 3) && negb (isLoading s) then
        match nth_error (SUGGESTIONS lang) i with
        | Some sug => send (Some sug) c u
        | None => None
        end
      else None
    | chat, ClickPreview i =>
      match nth_error (messages s) i with
      | Some msg =>
        match preview_button msg with
        | Some code => with_app u (handlePreview code s)
        | None => None
        end
      | None => None
      end
    | chat, ClickProjects | projects, ClickProjects =>
      with_app u (setCurrentView projects s)
    | projects, ClickBack | preview, ClickBack =>
      with_app u (setCurrentView chat s)
    | projects, ClickOpen i =>
      match nth_error (projects' s) i with
      | Some p => with_app u (loadProject p s)
      | None => None
      end
    | projects, ClickDelete i =>
      match nth_error (projects' s) i with
      | Some p => with_app u (deleteProject (p_id p) s)
      | None => None
      end
    | preview, ClickSaveProject => with_app u (setShowSaveDialog true s)
    | preview, TypeProjectName v =>
      if showSaveDialog s then with_app u (setProjectNameInput v s) else None
    | preview, ClickCancel =>
      if showSaveDialog s then with_app u (setShowSaveDialog false s) else None
    | preview, ClickSave c =>
      if showSaveDialog s then with_app u (saveProject c s) else None
    | _, _ => None
    end
  end.

(** Running a sequence of events from a session; [None] when one of them
    is not enabled. *)
Fixpoint steps (es : list Event) (u : Session) : option Session :=
  match es with
  | [] => Some u
  | e :: es' =>
    match step e u with
    | Some u' => steps es' u'
    | None => None
    end
  end.

Definition reachable (s : AppState) : Prop :=
  exists es u, steps es initialSession = Some u /\ app u = s.

End UI.
Import UI.

(* ================================================================== *)
(** ** App.tsx: the remaining controls *)
(* ================================================================== *)

Module AppControls.

(** A [Language] value is its two-letter code. *)
Definition code (lang : Language) : jsstring :=
  match lang with
  | az => js "az"
  | tr => js "tr"
  | en => js "en"
  | ru => js "ru"
  end.

(** [s.slice(-4)]: the last four code units, or all of [s] when shorter. *)
Definition slice_last4 (s : jsstring) : jsstring :=
  skipn (List.length s - 4) s.

(** One run of the [keydown] listener: the new value of [buffer], and
    whether [setShowMemory(true)] is called. *)
Definition handleKeyDown (buffer key : jsstring) : jsstring * bool :=
  let buffer' := toLowerCase (slice_last4 (buffer ++ key)) in
  (buffer', str_eqb buffer' (js "sbef")).

(** The listener over a sequence of keys: the final buffer, and whether the
    debug panel was opened on the way. *)
Fixpoint keydowns (buffer : jsstring) (keys : list jsstring) : jsstring * bool :=
  match keys with
  | [] => (buffer, false)
  | key :: keys' =>
    let (buffer', opened) := handleKeyDown buffer key in
    let (final, later) := keydowns buffer' keys' in
    (final, opened || later)
  end.

(** [s.split(sep)] for a one-unit separator. *)
Fixpoint split (sep : N) (s : jsstring) : list jsstring :=
  match s with
  | [] => [[]]
  | c :: s' =>
    if c =? sep then [] :: split sep s'
    else match split sep s' with
         | piece :: rest => (c :: piece) :: rest
         | [] => [[c]]
         end
  end.

Definition comma : N := 0x2C.

(** What [reader.onloadend] stores in the attachment cell:
    [result.split(',')[1]], which is [undefined] when there is no comma. *)
Definition loaded_attachment (result : jsstring) : option jsstring :=
  nth_error (split comma result) 1.

(** The [disabled] attribute of the send button. *)
Definition send_disabled (s : AppState) : bool :=
  (negb (truthy (trim (inputValue s))) && negb (truthy_opt (attachment' s)))
  || isLoading s.

(** Whether the suggestion row is rendered. *)
Definition suggestions_shown (s : AppState) : bool :=
  Nat.ltb (List.length (messages s)) 3 && negb (isLoading s).

End AppControls.
Import AppControls.

(* ================================================================== *)
(** ** Speech: voice choice and spoken text *)
(* ================================================================== *)

Module Speech.

(** The fields of [SpeechSynthesisVoice] that the code reads. *)
Record Voice : Type := mkVoice {
  voiceURI : jsstring;
  name     : jsstring;
  lang     : jsstring
}.

(** The voice [speakMessage] assigns to the utterance; [None] leaves the
    browser default.  [settingURI] is [voiceSettings.voiceURI]. *)
Definition chooseVoice (settingURI : option jsstring) (language : jsstring)
    (voices : list Voice) : option Voice :=
  if truthy_opt settingURI then
    match settingURI with
    | Some uri => find (fun v => str_eqb (voiceURI v) uri) voices
    | None => None
    end
  else
    let selectedVoice :=
      find (fun voice => includes (lang voice) language
                         && includes (name voice) (js "Google")) voices in
    let selectedVoice :=
      match selectedVoice with
      | None => find (fun voice => includes (toLowerCase (lang voice)) language)
                     voices
      | Some _ => selectedVoice
      end in
    match selectedVoice with
    | None => if str_eqb language (js "az")
              then find (fun voice => includes (lang voice) (js "tr")) voices
              else None
    | Some _ => selectedVoice
    end.

Definition fence : jsstring := js "```".
Definition codeNotice : jsstring := js " Code block detected. ".

(** [text.replace(/```[\s\S]*?```/g, notice)], scanning left to right: each
    fence opens at the first triple backtick not yet consumed and closes at
    the first one after it; an unclosed fence, and what follows it, stays.
    [fuel] bounds the number of replacements. *)
Fixpoint replace_fences (fuel : nat) (text : jsstring) : jsstring :=
  match fuel with
  | O => text
  | S fuel' =>
    match split_first text fence with
    | None => text
    | Some (before, opened) =>
      match split_first opened fence with
      | None => text
      | Some (_, rest) => before ++ codeNotice ++ replace_fences fuel' rest
      end
    end
  end.

(** [textToSpeak].  A replacement consumes at least six code units, so the
    length of the text is fuel enough. *)
Definition textToSpeak (message : Message) : jsstring :=
  replace_fences (List.length (text message)) (text message).

End Speech.
Import Speech.

(* ================================================================== *)
(** ** Vocabulary of the statements *)
(* ================================================================== *)

Module Spec.

(** [k] occurs in [s]. *)
Definition occurs_in (k s : jsstring) : Prop :=
  exists pre post, s = pre ++ k ++ post.

(** The modelled code points that do not survive upper-casing followed by
    lower-casing: micro sign, sharp s, dotless i, n with apostrophe, long s. *)
Definition unstable_cps : list N := [0xB5; 0xDF; 0x131; 0x149; 0x17F].

(** A modelled code point other than those. *)
Definition roundtrip_safe (c : N) : bool :=
  in_case_table c && negb (existsb (N.eqb c) unstable_cps).

(** The role the claim assigns to a sender. *)
Definition role_of (who : Sender) : jsstring :=
  match who with
  | USER => js "user"
  | BOT => js "model"
  end.

(** A turn carries a history entry: it has the entry's role, the entry's
    image when there is one and the entry's text when there is one. *)
Definition carries (msg : Message) (turn : Content) : Prop :=
  role turn = role_of (sender msg)
  /\ (forall a, attachment msg = Some a -> a <> [] ->
        In (InlineData (js "image/jpeg") a) (parts turn))
  /\ (text msg <> [] -> In (TextPart (text msg)) (parts turn)).

(** The text a turn carries: its text parts, in order. *)
Definition turn_text (turn : Content) : jsstring :=
  flat_map (fun p => match p with
                     | TextPart t => t
                     | InlineData _ _ => []
                     end) (parts turn).

(** A suspended handler that, whenever and however it resumes, leaves the
    view, the document under preview and the library as they are. *)
Definition frames (task : Promise Reaction) : Prop :=
  forall t c s,
    currentView (resume t c task s) = currentView s
    /\ previewCode (resume t c task s) = previewCode s
    /\ projects' (resume t c task s) = projects' s.

(** The preview view shows a non-empty document, and every saved project
    holds one. *)
Definition preview_ok (s : AppState) : Prop :=
  (currentView s = preview -> previewCode s <> [])
  /\ Forall (fun p => p_code p <> []) (projects' s).

(** The invariant of sessions. *)
Definition session_ok (u : Session) : Prop :=
  preview_ok (app u) /\ Forall frames (inflight u).

End Spec.
Import Spec.

(* ================================================================== *)
(** ** Sample transports, states and event sequences *)
(* ================================================================== *)

Module Samples.

(** The scenario sentence of the specification. *)
Definition bakuRequest : jsstring := js "mənə Bakının şəklini çək".

(** A transport on which every call fails with a network error. *)
Definition offline : Transport :=
  fun R _ => Rejected (ApiFailure (Some (js "Failed to fetch"))).

(** A transport whose text call answers with an empty text. *)
Definition silent : Transport :=
  fun R call =>
    match call in Api R return Settled R with
    | generateImages _ => Fulfilled {| generatedImages := None |}
    | generateContent _ => Fulfilled {| response_text := Some [] |}
    end.

(** A transport that answers every text request with a one-line site. *)
Definition designer : Transport :=
  fun R call =>
    match call in Api R return Settled R with
    | generateImages _ => Fulfilled {| generatedImages := None |}
    | generateContent _ =>
      Fulfilled {| response_text :=
        Some (js "Buyur, dizayn hazırdır ```html <h1>Salam</h1> ``` ") |}
    end.

Definition clock0 : Clock := {| now := 1700000000000; date := 1700000000000 |}.

(** The chat view after choosing Azerbaijani, with [typed] in the input. *)
Definition chatReady (typed : jsstring) : AppState :=
  setInputValue (fun _ => typed) (handleLanguageSelect az clock0 initialState).

(** The preview view on a small document. *)
Definition sitePreview : AppState :=
  handlePreview (js "<h1>Salam</h1>") (chatReady []).

(** Asking for a site, receiving it, and opening its preview. *)
Definition demoEvents : list Event :=
  [ SelectLanguage az clock0;
    TypeInput (js "sayt düzəlt");
    Submit clock0;
    Settle 0 designer clock0;
    ClickPreview 2 ].

Definition demoState : AppState :=
  match steps demoEvents initialSession with
  | Some u => app u
  | None => initialState
  end.

End Samples.
Import Samples.

(* ================================================================== *)
(** ** Vocabulary and samples of the further statements *)
(* ================================================================== *)

Module SpecMore.

(** The parts the service may put in a history turn. *)
Definition part_filled (p : Part) : Prop :=
  match p with
  | TextPart t => t <> []
  | InlineData mime data => mime = js "image/jpeg" /\ data <> []
  end.

(** The reply [handleSendMessage] appends when its [try] block throws. *)
Definition errorReply (c' : Clock) (message : jsstring) : Message :=
  {| id := toString (now c' + 1); sender := BOT; text := message;
     timestamp := date c'; isError := Some true; attachment := None |}.

(** The reply it appends on the text path. *)
Definition textReply (c' : Clock) (responseText : jsstring) : Message :=
  {| id := toString (now c' + 1); sender := BOT; text := responseText;
     timestamp := date c'; isError := None; attachment := None |}.

(** The reply it appends on the image path. *)
Definition imageReply (c' : Clock) (imageBytes : option jsstring) : Message :=
  {| id := toString (now c' + 1); sender := BOT;
     text := js "Buyur, istədiyin o mükəmməl təsvir:";
     timestamp := date c'; isError := None; attachment := imageBytes |}.

(** The transport rejects the first call of a task. *)
Definition rejects_first {A} (t : Transport) (task : Promise A) : Prop :=
  match first_call task with
  | Some (existT _ _ call) => exists e, t _ call = Rejected e
  | None => False
  end.

(** A suspended handler that, whenever and however it resumes, appends one
    message, lowers the loading flag, and does nothing else. *)
Definition settles_once (task : Promise Reaction) : Prop :=
  forall t c s, exists m,
    resume t c task s = setIsLoading false (append_message m s).

(** The conversation is empty until a language is chosen, and from then on
    starts with the welcome message of that language. *)
Definition history_ok (s : AppState) : Prop :=
  match selectedLanguage s with
  | None => messages s = []
  | Some l =>
    exists w rest,
      messages s = w :: rest
      /\ id w = js "welcome" /\ sender w = BOT /\ text w = WELCOME_MESSAGES l
      /\ attachment w = None
  end.

(** The loading flag is up exactly while one submission is suspended, and
    there is never more than one. *)
Definition one_in_flight (u : Session) : Prop :=
  match inflight u with
  | [] => isLoading (app u) = false
  | [_] => isLoading (app u) = true
  | _ :: _ :: _ => False
  end.

Definition session_wf (u : Session) : Prop :=
  history_ok (app u)
  /\ one_in_flight u
  /\ Forall settles_once (inflight u)
  /\ (selectedLanguage (app u) = None -> inflight u = []).

(** The conversation only grows at its end, and a chosen language stays. *)
Definition grows (s s' : AppState) : Prop :=
  (exists suffix, messages s' = messages s ++ suffix)
  /\ (forall l, selectedLanguage s = Some l -> selectedLanguage s' = Some l).

(** The code unit [`]. *)
Definition backtick : N := 0x60.

(** Every language tag of the voice list is made of modelled code points
    (language tags are ASCII). *)
Definition tags_modelled (voices : list Voice) : Prop :=
  Forall (fun v => forallb in_case_table (lang v) = true) voices.

End SpecMore.
Import SpecMore.

Module SamplesMore.

(** A transport that answers with one picture and with a short text. *)
Definition painter : Transport :=
  fun R call =>
    match call in Api R return Settled R with
    | generateImages _ =>
      Fulfilled {| generatedImages :=
        Some [ {| image := Some {| imageBytes := Some (js "QUJD") |} |} ] |}
    | generateContent _ => Fulfilled {| response_text := Some (js "Buyur") |}
    end.

(** Choosing a language, typing a greeting and submitting it. *)
Definition askEvents : list Event :=
  [ SelectLanguage az clock0; TypeInput (js "salam"); Submit clock0 ].

(** The session while that submission waits for its answer. *)
Definition askSession : Session :=
  match steps askEvents initialSession with
  | Some u => u
  | None => initialSession
  end.

(** The same, once the answer has arrived. *)
Definition answeredSession : Session :=
  match steps (askEvents ++ [Settle 0 painter clock0]) initialSession with
  | Some u => u
  | None => initialSession
  end.

(** The preview view with the save dialog open and a name typed. *)
Definition saveDialog : Session :=
  {| app := setProjectNameInput (js "Salam")
              (setShowSaveDialog true sitePreview);
     inflight := [] |}.

(** A bot answer whose fenced document was cut off before the closing
    fence, although it holds a DOCTYPE line. *)
Definition truncatedAnswer : Message :=
  {| id := js "1700000000001"; sender := BOT;
     text := js "Buyur: " ++ fence_open ++ js " <!DOCTYPE html><html><body>Sal";
     timestamp := 1700000000000; isError := None; attachment := None |}.

(** A bot answer with one complete fenced document. *)
Definition fencedAnswer : Message :=
  {| id := js "1700000000001"; sender := BOT;
     text := js "Buyur: " ++ fence_open ++ js " <h1>Salam</h1> " ++ fence_close
             ++ js " hazirdir";
     timestamp := 1700000000000; isError := None; attachment := None |}.

(** A message with the given text, as the speech functions see it. *)
Definition botSays (said : jsstring) : Message :=
  {| id := js "1700000000001"; sender := BOT; text := said;
     timestamp := 1700000000000; isError := None; attachment := None |}.

(** A browser with an English, a Turkish and a Russian voice. *)
Definition someVoices : list Voice :=
  [ {| voiceURI := js "urn:en"; name := js "Google US English";
       lang := js "en-US" |};
    {| voiceURI := js "urn:tr"; name := js "Yelda"; lang := js "tr-TR" |};
    {| voiceURI := js "urn:ru"; name := js "Milena"; lang := js "ru-RU" |} ].

End SamplesMore.
Import SamplesMore.

(* ================================================================== *)
(** * Properties *)
(* ================================================================== *)

(** ** Strings *)

Section StringFacts.

Example js_literal_ascii : js "draw" = [0x64; 0x72; 0x61; 0x77].
Proof. reflexivity. Qed.

Example js_literal_az : js "çək" = [0xE7; 0x259; 0x6B].
Proof. reflexivity. Qed.

Example js_literal_ru : js "создай" = [0x441; 0x43E; 0x437; 0x434; 0x430; 0x439].
Proof. reflexivity. Qed.

Example toString_example : toString 1700000000000 = js "1700000000000".
Proof. reflexivity. Qed.

Example trim_example : trim (js "  my site ") = js "my site".
Proof. reflexivity. Qed.

Lemma str_eqb_eq (s t : jsstring) : str_eqb s t = true <-> s = t.
Proof.
  revert t; induction s as [|a s IH]; intros [|b t]; simpl;
    try (split; [discriminate | congruence]); try tauto.
  rewrite andb_true_iff, N.eqb_eq, IH.
  split; [intros [-> ->]; reflexivity | intros E; injection E; auto].
Qed.

Lemma truthy_false (s : jsstring) : truthy s = false <-> s = [].
Proof. destruct s; simpl; split; congruence. Qed.

Lemma truthy_true (s : jsstring) : truthy s = true <-> s <> [].
Proof. destruct s; simpl; split; congruence. Qed.

(** [k] is a prefix of [s]. *)
Lemma startsWith_spec (s k : jsstring) :
  startsWith s k = true <-> exists post, s = k ++ post.
Proof.
  revert s; induction k as [|a k IH]; intros s.
  - destruct s; simpl; split; eauto.
  - destruct s as [|b s]; simpl.
    + split; [discriminate | intros [post E]; discriminate].
    + rewrite andb_true_iff, N.eqb_eq, IH. split.
      * intros [-> [post ->]]. now exists post.
      * intros [post E]. injection E as -> ->. eauto.
Qed.

Lemma includes_spec (s k : jsstring) : includes s k = true <-> occurs_in k s.
Proof.
  unfold occurs_in. induction s as [|c s IH].
  - cbn [includes]. rewrite orb_false_r, startsWith_spec. split.
    + intros [post E]. now exists [], post.
    + intros [pre [post E]]. destruct pre; [eauto | discriminate].
  - cbn [includes]. rewrite orb_true_iff, startsWith_spec, IH. split.
    + intros [[post E] | [pre [post E]]].
      * now exists [], post.
      * exists (c :: pre), post. now rewrite E.
    + intros [pre [post E]]. destruct pre as [|c' pre].
      * left. now exists post.
      * right. injection E as _ E. eauto.
Qed.

Lemma existsb_includes (text : jsstring) (words : list jsstring) :
  existsb (fun w => includes text w) words = true
  <-> exists w, In w words /\ occurs_in w text.
Proof.
  rewrite existsb_exists. split; intros [w [Hin H]]; exists w; split; auto;
    now apply includes_spec.
Qed.

Lemma trimStart_whitespace (s : jsstring) :
  forallb isWhiteSpace s = true -> trimStart s = [].
Proof.
  induction s as [|c s IH]; simpl; [reflexivity|].
  rewrite andb_true_iff. intros [-> H]. auto.
Qed.

Lemma trim_whitespace (s : jsstring) :
  forallb isWhiteSpace s = true -> trim s = [].
Proof.
  intros H. unfold trim, trimEnd. now rewrite (trimStart_whitespace s H).
Qed.

Lemma trimStart_nil_inv (s : jsstring) :
  trimStart s = [] -> forallb isWhiteSpace s = true.
Proof.
  induction s as [|c s IH]; simpl; [reflexivity|].
  destruct (isWhiteSpace c); [auto | discriminate].
Qed.

(** [trim] yields the empty string exactly on whitespace-only input. *)
Lemma trim_nil_iff (s : jsstring) :
  trim s = [] <-> forallb isWhiteSpace s = true.
Proof.
  split; [|apply trim_whitespace].
  unfold trim, trimEnd. intros H.
  destruct (trimStart s) as [|c r] eqn:E; [now apply trimStart_nil_inv|].
  exfalso.
  assert (W : isWhiteSpace c = false).
  { clear H. revert E. induction s as [|d s IH]; simpl; [discriminate|].
    destruct (isWhiteSpace d) eqn:D; [exact IH|]. intros E; injection E as -> _.
    exact D. }
  apply (f_equal (@rev N)) in H. rewrite rev_involutive in H. simpl in H.
  apply trimStart_nil_inv in H. rewrite forallb_forall in H.
  specialize (H c). rewrite W in H.
  assert (false = true); [|discriminate].
  apply H. apply in_or_app. right. now left.
Qed.

End StringFacts.

(** ** Case conversion *)

Section CaseFacts.

Example lower_example : toLowerCase (js "Bakının ŞƏKLİ") = js "bakının şəkli̇".
Proof. reflexivity. Qed.

Example upper_example : toUpperCase (js "hazırla") = js "HAZIRLA".
Proof. reflexivity. Qed.

Example lower_upper_dotless : toLowerCase (toUpperCase (js "ı")) = js "i".
Proof. reflexivity. Qed.

Lemma toLowerCase_app (s t : jsstring) :
  toLowerCase (s ++ t) = toLowerCase s ++ toLowerCase t.
Proof. apply flat_map_app. Qed.

(** Lower-casing after upper-casing is plain lower-casing on strings of
    case-stable code points. *)
Lemma lower_upper_stable (s : jsstring) :
  forallb case_stable s = true -> toLowerCase (toUpperCase s) = toLowerCase s.
Proof.
  induction s as [|c s IH]; simpl; [reflexivity|].
  rewrite andb_true_iff. intros [Hc Hs].
  change (toLowerCase (upper_cp c ++ toUpperCase s) = lower_cp c ++ toLowerCase s).
  rewrite toLowerCase_app, (IH Hs). f_equal.
  unfold case_stable in Hc. apply andb_true_iff in Hc as [_ Hc].
  now apply str_eqb_eq.
Qed.

Lemma below_enumerated (P : N -> bool) (n : nat) :
  forallb P (map N.of_nat (seq 0 n)) = true ->
  forall c, c < N.of_nat n -> P c = true.
Proof.
  intros H c Hc. rewrite forallb_forall in H. apply H.
  rewrite <- (N2Nat.id c). apply in_map, in_seq. lia.
Qed.

Lemma roundtrip_safe_stable (c : N) :
  roundtrip_safe c = true -> case_stable c = true.
Proof.
  intros H.
  assert (Hlt : c < N.of_nat 1120).
  { unfold roundtrip_safe, in_case_table, between in H.
    apply andb_true_iff in H as [H _].
    repeat rewrite orb_true_iff in H. rewrite andb_true_iff in H.
    repeat rewrite N.leb_le in H. repeat rewrite N.eqb_eq in H. lia. }
  pose proof (below_enumerated
    (fun c => implb (roundtrip_safe c) (case_stable c)) 1120
    ltac:(vm_compute; reflexivity) c Hlt) as E.
  cbv beta in E. rewrite H in E. exact E.
Qed.

End CaseFacts.

(** ** The intent classifier *)

Section Classifier.

(** C3. [isImageGenerationRequest text] is true exactly when the lower-cased
    text contains at least one entry of the action-verb list [keywords] and
    at least one entry of the subject-noun list [subjects]. *)
Theorem isImageGenerationRequest_iff (text : jsstring) :
  isImageGenerationRequest text = true
  <-> (exists k, In k keywords /\ occurs_in k (toLowerCase text))
      /\ (exists s, In s subjects /\ occurs_in s (toLowerCase text)).
Proof.
  unfold isImageGenerationRequest.
  now rewrite andb_true_iff, !existsb_includes.
Qed.

(** The scenario of a plain greeting: no verb, no subject. *)
Example greeting_is_not_image_request :
  isImageGenerationRequest (js "necəsən") = false.
Proof. vm_compute. reflexivity. Qed.

(** The classifier only looks at the lower-cased text. *)
Lemma isImageGenerationRequest_lower (s t : jsstring) :
  toLowerCase s = toLowerCase t ->
  isImageGenerationRequest s = isImageGenerationRequest t.
Proof. unfold isImageGenerationRequest. now intros ->. Qed.

(** C4, as stated, fails: a request spelled with the dotless i of the
    keyword list is recognised, its upper-cased form is not, because
    upper-casing sends the dotless i to I and lower-casing sends I to the
    dotted i. *)
Lemma upper_casing_changes_classification :
  isImageGenerationRequest (js "hazırla foto") = true
  /\ isImageGenerationRequest (toUpperCase (js "hazırla foto")) = false
  /\ toLowerCase (toUpperCase (js "hazırla foto")) = js "hazirla foto".
Proof. vm_compute. repeat split. Qed.

(** C4, amended.  On every string made of modelled code points other than
    the micro sign, sharp s, dotless i, n-apostrophe and long s, the
    classifier gives the same answer on the string and on its upper-cased
    form. *)
Theorem isImageGenerationRequest_upper_invariant (s : jsstring) :
  forallb roundtrip_safe s = true ->
  isImageGenerationRequest s = isImageGenerationRequest (toUpperCase s).
Proof.
  intros H. symmetry. apply isImageGenerationRequest_lower.
  apply lower_upper_stable.
  rewrite forallb_forall in *. intros c Hc.
  apply roundtrip_safe_stable, H, Hc.
Qed.

Lemma isImageGenerationRequest_upper_invariant_witness :
  forallb roundtrip_safe (js "Нарисуй şəkil, create a Photo") = true
  /\ isImageGenerationRequest (js "Нарисуй şəkil, create a Photo")
     = isImageGenerationRequest (toUpperCase (js "Нарисуй şəkil, create a Photo")).
Proof.
  split.
  - vm_compute. reflexivity.
  - apply (isImageGenerationRequest_upper_invariant
             (js "Нарисуй şəkil, create a Photo")).
    vm_compute. reflexivity.
Defined.

(** C5, as stated, fails: the sentence holds the verb [çək], but its noun
    is the inflected [şəklini], which does not contain [şəkil], and no other
    subject occurs either. *)
Lemma bakuRequest_not_classified :
  isImageGenerationRequest bakuRequest = false
  /\ existsb (fun k => includes (toLowerCase bakuRequest) k) keywords = true
  /\ existsb (fun s => includes (toLowerCase bakuRequest) s) subjects = false.
Proof. vm_compute. repeat split. Qed.

End Classifier.

(** ** Asynchronous computations *)

Section AsyncFacts.

Context {A B : Type}.

Lemma run_bind (t : Transport) (p : Promise A) (f : A -> Promise B) :
  run t (bind p f) =
  match run t p with
  | Returned a => run t (f a)
  | Threw e => Threw e
  end.
Proof. induction p as [a|e|R call k IH]; simpl; auto. Qed.

Lemma run_try_catch (t : Transport) (p : Promise A) (h : exn -> Promise A) :
  run t (try_catch p h) =
  match run t p with
  | Returned a => Returned a
  | Threw e => run t (h e)
  end.
Proof. induction p as [a|e|R call k IH]; simpl; auto. Qed.

Lemma run_await (t : Transport) {R} (call : Api R) :
  run t (await call) =
  match t _ call with
  | Fulfilled r => Returned r
  | Rejected e => Threw e
  end.
Proof. simpl. now destruct (t R call). Qed.

End AsyncFacts.

(** ** The transport client *)

Section Service.

Lemma history_turn_carries (msg : Message) : carries msg (history_turn msg).
Proof.
  unfold carries, history_turn; simpl. split; [|split].
  - now destruct (sender msg).
  - intros a Ha Hne. rewrite Ha. simpl.
    destruct a; [congruence|]. simpl. auto.
  - intros Hne. apply in_or_app. right.
    apply truthy_true in Hne. unfold or_else. rewrite Hne. simpl. auto.
Qed.

Lemma history_turn_role (msg : Message) :
  role (history_turn msg) = role_of (sender msg).
Proof. apply history_turn_carries. Qed.

(** C1. The request that [sendMessageToGemini] issues has [|H| + 1] turns:
    the first [|H|] are the entries of [H] in their order, each with role
    user for a user entry and role model for a bot entry, and the last one
    is a user turn whose final part is the text [M]. *)
Theorem sendMessageToGemini_contents
    (H : list Message) (M : jsstring) (imageBase64 : option jsstring)
    (language : jsstring) :
  exists contents current,
    first_call (sendMessageToGemini H M imageBase64 language)
      = Some (existT _ _ (generateContent
          {| gc_model := TEXT_MODEL_NAME; gc_contents := contents;
             gc_language := language |}))
    /\ List.length contents = S (List.length H)
    /\ Forall2 carries H (firstn (List.length H) contents)
    /\ map role (firstn (List.length H) contents)
       = map (fun msg => role_of (sender msg)) H
    /\ skipn (List.length H) contents = [current]
    /\ role current = js "user"
    /\ exists before, parts current = before ++ [TextPart M].
Proof.
  exists (build_contents H M imageBase64),
         {| role := js "user"; parts := currentParts M imageBase64 |}.
  unfold build_contents.
  assert (L : List.length (map history_turn H) = List.length H)
    by apply length_map.
  split; [reflexivity|].
  split; [rewrite length_app, L; simpl; lia|].
  rewrite <- L at 1 2. rewrite firstn_app, Nat.sub_diag, firstn_all. simpl.
  rewrite app_nil_r.
  split; [|split; [|split; [|split]]].
  - clear L. induction H as [|msg H IH]; simpl; constructor; auto.
    apply history_turn_carries.
  - rewrite map_map. apply map_ext. intros msg. apply history_turn_role.
  - rewrite <- L. rewrite skipn_app, Nat.sub_diag, skipn_all. reflexivity.
  - reflexivity.
  - unfold currentParts. simpl. eauto.
Qed.

(** C8. When the SDK call is rejected, whatever the rejection, [generateImage]
    throws the image-service-busy error and [sendMessageToGemini] throws the
    connection-lost error; and these are the only errors either function
    ever throws. *)
Theorem service_errors_are_domain_errors (t : Transport)
    (prompt : jsstring) (H : list Message) (M : jsstring)
    (imageBase64 : option jsstring) (language : jsstring) :
  (forall e, t _ (generateImages (generateImages_request prompt)) = Rejected e ->
     run t (generateImage prompt) = Threw (Error imageBusyMessage))
  /\ (forall e, t _ (generateContent
                       (generateContent_request H M imageBase64 language))
                = Rejected e ->
        run t (sendMessageToGemini H M imageBase64 language)
        = Threw (Error connectionLostMessage))
  /\ (forall e, run t (generateImage prompt) = Threw e ->
        e = Error imageBusyMessage)
  /\ (forall e, run t (sendMessageToGemini H M imageBase64 language) = Threw e ->
        e = Error connectionLostMessage).
Proof.
  unfold generateImage, sendMessageToGemini.
  repeat split; intros e; rewrite run_try_catch, run_bind, run_await.
  - now intros ->.
  - now intros ->.
  - destruct (t _ _) as [r|e']; simpl.
    + destruct (run t (first_image_bytes r)); simpl; congruence.
    + congruence.
  - destruct (t _ _) as [r|e']; simpl.
    + destruct (response_text r) as [x|]; [destruct (truthy x)|]; simpl;
        congruence.
    + congruence.
Qed.

Lemma service_errors_are_domain_errors_witness :
  run offline (generateImage (js "draw a photo"))
    = Threw (Error imageBusyMessage)
  /\ run offline (sendMessageToGemini [] (js "salam") None (js "English"))
    = Threw (Error connectionLostMessage).
Proof.
  destruct (service_errors_are_domain_errors offline (js "draw a photo") []
              (js "salam") None (js "English")) as [Hi [Hc _]].
  split.
  - apply (Hi (ApiFailure (Some (js "Failed to fetch")))). reflexivity.
  - apply (Hc (ApiFailure (Some (js "Failed to fetch")))). reflexivity.
Defined.

(** C9. When the call succeeds with an absent or empty text,
    [sendMessageToGemini] returns, and what it returns is the fixed
    response-blocked notice. *)
Theorem sendMessageToGemini_blocked (t : Transport)
    (H : list Message) (M : jsstring) (imageBase64 : option jsstring)
    (language : jsstring) (response : GenerateContentResponse) :
  t _ (generateContent (generateContent_request H M imageBase64 language))
    = Fulfilled response ->
  response_text response = None \/ response_text response = Some [] ->
  run t (sendMessageToGemini H M imageBase64 language) = Returned blockedNotice.
Proof.
  intros Ht Hr. unfold sendMessageToGemini.
  rewrite run_try_catch, run_bind, run_await, Ht.
  destruct Hr as [-> | ->]; reflexivity.
Qed.

Lemma sendMessageToGemini_blocked_witness :
  run silent (sendMessageToGemini [] (js "salam") None (js "English"))
  = Returned blockedNotice.
Proof.
  apply (sendMessageToGemini_blocked silent [] (js "salam") None (js "English")
           {| response_text := Some [] |}).
  - reflexivity.
  - right. reflexivity.
Defined.

End Service.

(** ** Sending a message *)

Section Sending.

Lemma handleSendMessage_accepts textOverride c s s' task :
  handleSendMessage textOverride c s = Some (s', task) ->
  send_refused textOverride s = false
  /\ exists lang, selectedLanguage s = Some lang
       /\ task = send_task textOverride c s lang.
Proof.
  unfold handleSendMessage.
  destruct (send_refused textOverride s); [discriminate|].
  destruct (selectedLanguage s) as [lang|]; [|discriminate].
  intros E; injection E as _ <-. eauto.
Qed.

Lemma send_task_text_path textOverride c s lang :
  takes_image_path textOverride s = false ->
  first_call (send_task textOverride c s lang)
  = Some (existT _ _ (generateContent
      (generateContent_request
         (messages s ++ [newUserMessage textOverride c s])
         (textToSend textOverride s) (attachment' s) (langMap lang)))).
Proof.
  unfold takes_image_path, send_task. intros ->. reflexivity.
Qed.

Lemma send_task_image_path textOverride c s lang :
  takes_image_path textOverride s = true ->
  first_call (send_task textOverride c s lang)
  = Some (existT _ _ (generateImages
      (generateImages_request (textToSend textOverride s)))).
Proof.
  unfold takes_image_path, send_task. intros ->. reflexivity.
Qed.

(** C2. On the text path [handleSendMessage] hands [sendMessageToGemini] the
    history with the new user message appended and, as current message, the
    text of that same message.  The request therefore ends with two user
    turns carrying that text; when the text is not empty the two turns are
    the same turn twice. *)
Theorem handleSendMessage_sends_user_turn_twice
    (textOverride : option jsstring) (c : Clock) (s s' : AppState)
    (task : Promise Reaction) :
  handleSendMessage textOverride c s = Some (s', task) ->
  takes_image_path textOverride s = false ->
  let m := newUserMessage textOverride c s in
  exists lang req t1 t2,
    first_call task = Some (existT _ _ (generateContent req))
    /\ req = generateContent_request (messages s ++ [m]) (text m)
               (attachment' s) (langMap lang)
    /\ gc_contents req = map history_turn (messages s) ++ [t1; t2]
    /\ t1 = history_turn m
    /\ role t1 = js "user" /\ role t2 = js "user"
    /\ turn_text t1 = text m /\ turn_text t2 = text m
    /\ (text m <> [] -> t1 = t2).
Proof.
  intros Hs Hpath m.
  apply handleSendMessage_accepts in Hs as [Hok [lang [Hlang ->]]].
  exists lang. eexists. exists (history_turn m).
  exists {| role := js "user";
            parts := currentParts (text m) (attachment' s) |}.
  split; [apply (send_task_text_path _ _ _ _ Hpath)|].
  split; [reflexivity|].
  split.
  { simpl. unfold build_contents. rewrite map_app, <- app_assoc. reflexivity. }
  split; [reflexivity|].
  split; [reflexivity|].
  split; [reflexivity|].
  unfold send_refused in Hok. rewrite Hlang, orb_false_r in Hok.
  apply orb_false_iff in Hok as [Hguard _].
  subst m. unfold history_turn, currentParts, turn_text, newUserMessage.
  cbn [text attachment sender role parts].
  destruct (attachment' s) as [[|a0 a]|];
    destruct (textToSend textOverride s) as [|x0 x] eqn:Etext;
    cbn in *; rewrite ?app_nil_r;
    try discriminate; repeat split; congruence.
Qed.

Lemma handleSendMessage_sends_user_turn_twice_witness :
  exists lang req t1 t2,
    first_call (send_task None clock0 (chatReady (js "necəsən")) az)
      = Some (existT _ _ (generateContent req))
    /\ req = generateContent_request
               (messages (chatReady (js "necəsən"))
                ++ [newUserMessage None clock0 (chatReady (js "necəsən"))])
               (text (newUserMessage None clock0 (chatReady (js "necəsən"))))
               (attachment' (chatReady (js "necəsən"))) (langMap lang)
    /\ gc_contents req
       = map history_turn (messages (chatReady (js "necəsən"))) ++ [t1; t2]
    /\ t1 = history_turn (newUserMessage None clock0 (chatReady (js "necəsən")))
    /\ role t1 = js "user" /\ role t2 = js "user"
    /\ turn_text t1 = text (newUserMessage None clock0 (chatReady (js "necəsən")))
    /\ turn_text t2 = text (newUserMessage None clock0 (chatReady (js "necəsən")))
    /\ (text (newUserMessage None clock0 (chatReady (js "necəsən"))) <> []
        -> t1 = t2).
Proof.
  eapply (handleSendMessage_sends_user_turn_twice None clock0
            (chatReady (js "necəsən"))).
  - vm_compute. reflexivity.
  - vm_compute. reflexivity.
Defined.

(** An image-only submission also takes the text path; there the appended
    history turn has no text part while the current turn has an empty one. *)
Example image_only_submission :
  let s := setAttachment (Some (js "QUJD")) (chatReady []) in
  takes_image_path None s = false
  /\ parts (history_turn (newUserMessage None clock0 s))
     = [InlineData (js "image/jpeg") (js "QUJD")]
  /\ currentParts (text (newUserMessage None clock0 s)) (attachment' s)
     = [InlineData (js "image/jpeg") (js "QUJD"); TextPart []].
Proof. vm_compute. repeat split. Qed.

Lemma bakuRequest_classifier_value : isImageGenerationRequest bakuRequest = false.
Proof. vm_compute. reflexivity. Qed.

(** C5, amended.  [isImageGenerationRequest] returns false on the scenario
    sentence, so a submission of it is sent down the text path: the call
    the handler issues is [generateContent], with the sentence as current
    message, and not [generateImages]. *)
Theorem bakuRequest_takes_text_path
    (textOverride : option jsstring) (c : Clock) (s s' : AppState)
    (task : Promise Reaction) :
  textToSend textOverride s = bakuRequest ->
  handleSendMessage textOverride c s = Some (s', task) ->
  isImageGenerationRequest bakuRequest = false
  /\ exists lang,
       first_call task = Some (existT _ _ (generateContent
         (generateContent_request
            (messages s ++ [newUserMessage textOverride c s])
            bakuRequest (attachment' s) (langMap lang)))).
Proof.
  intros Htext Hs. split; [apply bakuRequest_classifier_value|].
  apply handleSendMessage_accepts in Hs as [_ [lang [_ ->]]].
  exists lang. rewrite <- Htext. apply send_task_text_path.
  unfold takes_image_path. now rewrite Htext, bakuRequest_classifier_value.
Qed.

Lemma bakuRequest_takes_text_path_witness :
  isImageGenerationRequest bakuRequest = false
  /\ exists lang,
       first_call (send_task None clock0 (chatReady bakuRequest) az)
       = Some (existT _ _ (generateContent
           (generateContent_request
              (messages (chatReady bakuRequest)
               ++ [newUserMessage None clock0 (chatReady bakuRequest)])
              bakuRequest (attachment' (chatReady bakuRequest))
              (langMap lang)))).
Proof.
  eapply (bakuRequest_takes_text_path None clock0 (chatReady bakuRequest)).
  - vm_compute. reflexivity.
  - vm_compute. reflexivity.
Defined.

(** With the noun in its dictionary form the same request is classified as
    an image request and goes to [generateImages]. *)
Example uninflected_request_takes_image_path :
  isImageGenerationRequest (js "mənə Bakının şəkilini çək") = true
  /\ first_call (send_task None clock0
                   (chatReady (js "mənə Bakının şəkilini çək")) az)
     = Some (existT _ _ (generateImages
         (generateImages_request (js "mənə Bakının şəkilini çək")))).
Proof. split; vm_compute; reflexivity. Qed.

End Sending.

(** ** The project library *)

Section Library.

(** C6. With an empty or whitespace-only name in the dialog, [saveProject]
    changes nothing: the state, and with it the project list, is the same
    after the call. *)
Theorem saveProject_blank_name (c : Clock) (s : AppState) :
  forallb isWhiteSpace (projectNameInput s) = true ->
  saveProject c s = s
  /\ projects' (saveProject c s) = projects' s
  /\ List.length (projects' (saveProject c s)) = List.length (projects' s).
Proof.
  intros H. unfold saveProject. rewrite (trim_whitespace _ H). simpl. auto.
Qed.

Lemma saveProject_blank_name_witness :
  saveProject clock0 (setProjectNameInput (js "   ") sitePreview)
    = setProjectNameInput (js "   ") sitePreview
  /\ projects' (saveProject clock0 (setProjectNameInput (js "   ") sitePreview))
     = projects' (setProjectNameInput (js "   ") sitePreview)
  /\ List.length
       (projects' (saveProject clock0 (setProjectNameInput (js "   ") sitePreview)))
     = List.length (projects' (setProjectNameInput (js "   ") sitePreview)).
Proof.
  apply (saveProject_blank_name clock0
           (setProjectNameInput (js "   ") sitePreview)).
  vm_compute. reflexivity.
Defined.

(** C7. With a name whose trimmed form is not empty, [saveProject] puts one
    new project in front of the list and leaves the rest as it was; the
    new project has the name as typed and the code under preview. *)
Theorem saveProject_prepends (c : Clock) (s : AppState) :
  trim (projectNameInput s) <> [] ->
  exists newProject,
    projects' (saveProject c s) = newProject :: projects' s
    /\ p_name newProject = projectNameInput s
    /\ p_code newProject = previewCode s.
Proof.
  intros H. apply truthy_true in H. unfold saveProject. rewrite H. simpl.
  eexists. repeat split.
Qed.

Lemma saveProject_prepends_witness :
  exists newProject,
    projects' (saveProject clock0 (setProjectNameInput (js " Salam ") sitePreview))
      = newProject :: projects' (setProjectNameInput (js " Salam ") sitePreview)
    /\ p_name newProject
       = projectNameInput (setProjectNameInput (js " Salam ") sitePreview)
    /\ p_code newProject
       = previewCode (setProjectNameInput (js " Salam ") sitePreview).
Proof.
  apply (saveProject_prepends clock0
           (setProjectNameInput (js " Salam ") sitePreview)).
  vm_compute. discriminate.
Defined.

Example saveProject_example :
  map p_name (projects'
    (saveProject clock0 (setProjectNameInput (js " Salam ") sitePreview)))
  = [js " Salam "]
  /\ map p_code (projects'
    (saveProject clock0 (setProjectNameInput (js " Salam ") sitePreview)))
  = [js "<h1>Salam</h1>"].
Proof. vm_compute. split; reflexivity. Qed.

End Library.

(** ** The preview view *)

Section Preview.

Lemma preview_button_truthy (msg : Message) (code : jsstring) :
  preview_button msg = Some code -> code <> [].
Proof.
  unfold preview_button. destruct (htmlCode msg) as [h|]; [|discriminate].
  destruct h; simpl; [discriminate|]. intros E; injection E as <-. discriminate.
Qed.

Lemma send_task_frames textOverride c s lang :
  frames (send_task textOverride c s lang).
Proof.
  intros t c' s0. unfold resume, send_task. rewrite run_try_catch.
  destruct (_ && _); rewrite run_bind;
    match goal with |- context [run t ?p] => destruct (run t p) end;
    simpl; auto.
Qed.

Lemma take_task_Forall {A} (P : A -> Prop) i (l : list A) x rest :
  take_task i l = Some (x, rest) -> Forall P l -> P x /\ Forall P rest.
Proof.
  revert i x rest. induction l as [|y l IH]; intros i x rest; simpl.
  - destruct i; discriminate.
  - destruct i as [|i]; simpl.
    + intros E; injection E as <- <-. intros F. inversion F; auto.
    + destruct (take_task i l) as [[z r]|] eqn:E; [|discriminate].
      intros E'; injection E' as <- <-. intros F; inversion F; subst.
      destruct (IH _ _ _ E) as [Hx Hr]; auto.
Qed.

Lemma send_ok textOverride c u u' :
  send textOverride c u = Some u' -> session_ok u -> session_ok u'.
Proof.
  unfold send. destruct (handleSendMessage textOverride c (app u))
    as [[s' task]|] eqn:E.
  - intros E'; injection E' as <-. intros [Hp Hf].
    apply handleSendMessage_accepts in E as E2.
    destruct E2 as [_ [lang [_ ->]]].
    unfold handleSendMessage in E.
    destruct (send_refused _ _); [discriminate|].
    destruct (selectedLanguage (app u)); [|discriminate].
    injection E as <-. split; simpl.
    + exact Hp.
    + apply Forall_app; split; [exact Hf|]. constructor; [|constructor].
      apply send_task_frames.
  - intros E'; injection E' as <-. auto.
Qed.

Lemma preview_ok_same (s s' : AppState) :
  currentView s' = currentView s -> previewCode s' = previewCode s ->
  projects' s' = projects' s -> preview_ok s -> preview_ok s'.
Proof. unfold preview_ok. intros -> -> ->. auto. Qed.

Lemma preview_ok_leave (s s' : AppState) :
  currentView s' <> preview -> projects' s' = projects' s ->
  preview_ok s -> preview_ok s'.
Proof. unfold preview_ok. intros Hv ->. intros [_ Hl]. split; tauto. Qed.

Lemma preview_ok_enter (s s' : AppState) :
  previewCode s' <> [] -> projects' s' = projects' s ->
  preview_ok s -> preview_ok s'.
Proof. unfold preview_ok. intros Hc ->. intros [_ Hl]. split; auto. Qed.

Lemma saveProject_ok (c : Clock) (s : AppState) :
  currentView s = preview -> preview_ok s -> preview_ok (saveProject c s).
Proof.
  intros Hv [Hview Hlib]. unfold saveProject.
  destruct (negb _); [split; assumption|].
  split; simpl; [assumption|]. constructor; auto.
Qed.

Lemma deleteProject_ok (pid : jsstring) (s : AppState) :
  preview_ok s -> preview_ok (deleteProject pid s).
Proof.
  intros [Hview Hlib]. split; simpl; [assumption|].
  rewrite Forall_forall in *. intros p Hp.
  apply filter_In in Hp as [Hp _]. auto.
Qed.

Lemma loadProject_ok (i : nat) (p : Project) (s : AppState) :
  nth_error (projects' s) i = Some p -> preview_ok s ->
  preview_ok (loadProject p s).
Proof.
  intros Hp Hs. apply (preview_ok_enter s); [|reflexivity|exact Hs].
  simpl. destruct Hs as [_ Hlib]. rewrite Forall_forall in Hlib.
  apply Hlib. eapply nth_error_In; eauto.
Qed.

Lemma handlePreview_ok (msg : Message) (code : jsstring) (s : AppState) :
  preview_button msg = Some code -> preview_ok s ->
  preview_ok (handlePreview code s).
Proof.
  intros Hb Hs. apply (preview_ok_enter s); [|reflexivity|exact Hs].
  simpl. eapply preview_button_truthy; eauto.
Qed.

Lemma resume_ok (t : Transport) (c : Clock) (task : Promise Reaction)
    (s : AppState) :
  frames task -> preview_ok s -> preview_ok (resume t c task s).
Proof.
  intros Hf. destruct (Hf t c s) as [Ev [Ec Ep]].
  now apply preview_ok_same.
Qed.

Ltac session_step :=
  match goal with
  | H : with_app _ _ = Some _ |- _ =>
    unfold with_app in H; injection H as <-
  | H : Some (mkSession _ _) = Some _ |- _ => injection H as <-
  | H : None = Some _ |- _ => discriminate H
  | H : (if ?b then _ else _) = Some _ |- _ => destruct b eqn:?
  | H : match ?x with _ => _ end = Some _ |- _ => destruct x eqn:?
  end.

Ltac preview_case Hp :=
  first
    [ eapply preview_ok_same; [| | | exact Hp]; reflexivity
    | eapply preview_ok_leave; [| | exact Hp]; [simpl; discriminate | reflexivity]
    | eapply handlePreview_ok; [eassumption | exact Hp]
    | eapply loadProject_ok; [eassumption | exact Hp]
    | apply deleteProject_ok; exact Hp
    | apply saveProject_ok; [assumption | exact Hp] ].

Lemma step_ok (e : Event) (u u' : Session) :
  step e u = Some u' -> session_ok u -> session_ok u'.
Proof.
  intros Hstep [Hp Hfl]. unfold step in Hstep.
  destruct (selectedLanguage (app u)) as [lang|] eqn:Hlang;
    destruct e; try discriminate Hstep;
    try (destruct (currentView (app u)) eqn:Hv; try discriminate Hstep).
  all: try (eapply send_ok; [exact Hstep | split; assumption]).
  all: repeat session_step.
  all: try (eapply send_ok; [eassumption | split; assumption]).
  all: try (split; [preview_case Hp | exact Hfl]).
  all: match goal with
       | H : take_task _ _ = Some _ |- _ =>
         destruct (take_task_Forall _ _ _ _ _ H Hfl) as [Hx Hr];
         split; [apply resume_ok; assumption | exact Hr]
       end.
Qed.

Lemma steps_ok (es : list Event) (u u' : Session) :
  steps es u = Some u' -> session_ok u -> session_ok u'.
Proof.
  revert u. induction es as [|e es IH]; simpl; intros u.
  - intros E; injection E as <-. auto.
  - destruct (step e u) as [u1|] eqn:E; [|discriminate].
    intros Hs Hu. apply (IH u1 Hs). eapply step_ok; eauto.
Qed.

Lemma initialSession_ok : session_ok initialSession.
Proof. split; [split|]; simpl; [discriminate | constructor | constructor]. Qed.

End Preview.

Section PreviewReachability.

(** C10. In every state reached from the initial one by events of the
    interface, if the current view is the preview then the document under
    preview is not the empty string. *)
Theorem preview_has_payload (s : AppState) :
  reachable s -> currentView s = preview -> previewCode s <> [].
Proof.
  intros [es [u [Hsteps <-]]].
  destruct (steps_ok es initialSession u Hsteps initialSession_ok)
    as [[Hview _] _].
  exact Hview.
Qed.

Lemma preview_has_payload_witness :
  currentView demoState = preview /\ previewCode demoState <> [].
Proof.
  split.
  - vm_compute. reflexivity.
  - apply (preview_has_payload demoState).
    + exists demoEvents. eexists. split; [vm_compute; reflexivity|].
      vm_compute. reflexivity.
    + vm_compute. reflexivity.
Defined.

(** The scenario of a fenced answer: the button hands over exactly the
    fenced text, trimmed. *)
Example demoState_preview :
  previewCode demoState = js "<h1>Salam</h1>"
  /\ List.length (messages demoState) = 3%nat
  /\ isLoading demoState = false.
Proof. vm_compute. repeat split. Qed.

(** A fence holding only blanks yields an empty [htmlCode], and no button. *)
Example blank_fence_has_no_button :
  let msg := {| id := js "1"; sender := BOT; text := js "```html   ```";
                timestamp := 0; isError := None; attachment := None |} in
  htmlCode msg = Some [] /\ preview_button msg = None.
Proof. vm_compute. split; reflexivity. Qed.

(** Opening the save dialog and leaving the preview keeps the payload;
    saving from the preview stores it. *)
Example demo_save_and_reopen :
  match steps (demoEvents ++ [ClickSaveProject; TypeProjectName (js "Salam");
                              ClickSave clock0; ClickBack; ClickProjects;
                              ClickOpen 0]) initialSession with
  | Some u => currentView (app u) = preview
              /\ previewCode (app u) = js "<h1>Salam</h1>"
              /\ map p_name (projects' (app u)) = [js "Salam"]
  | None => False
  end.
Proof. vm_compute. repeat split. Qed.

End PreviewReachability.

(* ================================================================== *)
(** * Further properties of the code *)
(* ================================================================== *)

(** ** The transport client, continued *)

Section ServiceMore.

(** X1. [generateImage] returns exactly when the call is fulfilled with a
    non-empty image list whose first entry has an image; it then returns
    that image's bytes.  In every other case it throws. *)
Theorem generateImage_returns_iff (t : Transport) (prompt : jsstring)
    (b : option jsstring) :
  run t (generateImage prompt) = Returned b
  <-> exists r g rest i,
        t _ (generateImages (generateImages_request prompt)) = Fulfilled r
        /\ generatedImages r = Some (g :: rest)
        /\ image g = Some i
        /\ imageBytes i = b.
Proof.
  unfold generateImage. rewrite run_try_catch, run_bind, run_await.
  destruct (t _ _) as [r|e]; simpl.
  - unfold first_image_bytes.
    destruct (generatedImages r) as [[|g rest]|] eqn:Eg; simpl.
    + split; [discriminate|]. intros (r' & g & rest & i & E & Hg & _).
      injection E as <-. congruence.
    + destruct (image g) as [i|] eqn:Ei; simpl.
      * split.
        -- intros E. injection E as <-. exists r, g, rest, i. auto.
        -- intros (r' & g' & rest' & i' & E & Hg & Hi & Hb).
           injection E as <-. rewrite Eg in Hg. injection Hg as <- <-.
           rewrite Ei in Hi. injection Hi as <-. now rewrite Hb.
      * split; [discriminate|].
        intros (r' & g' & rest' & i' & E & Hg & Hi & _).
        injection E as <-. rewrite Eg in Hg. injection Hg as <- <-. congruence.
    + split; [discriminate|]. intros (r' & g & rest & i & E & Hg & _).
      injection E as <-. congruence.
  - split; [discriminate|]. intros (r' & g & rest & i & E & _). discriminate.
Qed.

(** X2. A fulfilled call without images, or with an empty list, makes
    [generateImage] throw the image-service-busy error: the message of the
    inner throw never reaches the caller. *)
Theorem generateImage_no_images (t : Transport) (prompt : jsstring)
    (r : GenerateImagesResponse) :
  t _ (generateImages (generateImages_request prompt)) = Fulfilled r ->
  generatedImages r = None \/ generatedImages r = Some [] ->
  run t (generateImage prompt) = Threw (Error imageBusyMessage)
  /\ run t (generateImage prompt) <> Threw (Error imageEmptyMessage).
Proof.
  intros Ht Hr. unfold generateImage.
  rewrite run_try_catch, run_bind, run_await, Ht. unfold first_image_bytes.
  destruct Hr as [-> | ->]; simpl; split; try reflexivity;
    intros E; injection E as E; vm_compute in E; discriminate.
Qed.

Lemma generateImage_no_images_witness :
  run silent (generateImage (js "draw a photo")) = Threw (Error imageBusyMessage)
  /\ run silent (generateImage (js "draw a photo"))
     <> Threw (Error imageEmptyMessage).
Proof.
  apply (generateImage_no_images silent (js "draw a photo")
           {| generatedImages := None |}).
  - reflexivity.
  - left. reflexivity.
Defined.

(** X3. What [sendMessageToGemini] returns is never the empty string: it is
    the non-empty text of the response, or the blocked notice. *)
Theorem sendMessageToGemini_returns_nonempty (t : Transport)
    (H : list Message) (M : jsstring) (imageBase64 : option jsstring)
    (language x : jsstring) :
  run t (sendMessageToGemini H M imageBase64 language) = Returned x ->
  x <> []
  /\ (x = blockedNotice
      \/ exists r,
           t _ (generateContent
                  (generateContent_request H M imageBase64 language))
           = Fulfilled r
           /\ response_text r = Some x).
Proof.
  unfold sendMessageToGemini. rewrite run_try_catch, run_bind, run_await.
  destruct (t _ _) as [r|e] eqn:Et; simpl; [|discriminate].
  destruct (response_text r) as [y|] eqn:Ey; simpl.
  - destruct (truthy y) eqn:Ty; simpl; intros E; injection E as <-.
    + split; [now apply truthy_true|]. right. exists r. auto.
    + split; [vm_compute; discriminate | now left].
  - intros E; injection E as <-. split; [vm_compute; discriminate | now left].
Qed.

Lemma sendMessageToGemini_returns_nonempty_witness :
  blockedNotice <> []
  /\ (blockedNotice = blockedNotice
      \/ exists r,
           silent _ (generateContent
                       (generateContent_request [] (js "salam") None
                          (js "English")))
           = Fulfilled r
           /\ response_text r = Some blockedNotice).
Proof.
  apply (sendMessageToGemini_returns_nonempty silent [] (js "salam") None
           (js "English") blockedNotice).
  vm_compute. reflexivity.
Defined.

(** X4. Every turn built from a history entry has one or two parts, none of
    them empty: an entry without text and without image is sent as a single
    blank, and the turn's role is user or model. *)
Theorem history_turn_filled (msg : Message) :
  parts (history_turn msg) <> []
  /\ (List.length (parts (history_turn msg)) <= 2)%nat
  /\ Forall part_filled (parts (history_turn msg))
  /\ (role (history_turn msg) = js "user"
      \/ role (history_turn msg) = js "model")
  /\ (truthy (text msg) = false -> truthy_opt (attachment msg) = false ->
      parts (history_turn msg) = [TextPart (js " ")]).
Proof.
  unfold history_turn; simpl.
  destruct (attachment msg) as [[|a0 a]|]; destruct (text msg) as [|x0 x];
    destruct (sender msg); cbn;
    repeat split; try discriminate; try lia; auto;
    repeat constructor; try discriminate.
Qed.

End ServiceMore.

(** ** Sending a message, continued *)

Section SendingMore.

Lemma textToSend_typed (s : AppState) : textToSend None s = trim (inputValue s).
Proof. reflexivity. Qed.

Lemma textToSend_override (t : jsstring) (s : AppState) :
  t <> [] -> textToSend (Some t) s = t.
Proof. intros H. unfold textToSend. simpl. now destruct t. Qed.

Lemma handleSendMessage_None_iff o c s :
  handleSendMessage o c s = None <-> send_refused o s = true.
Proof.
  unfold handleSendMessage. destruct (send_refused o s) eqn:E.
  - tauto.
  - unfold send_refused in E.
    destruct (selectedLanguage s).
    + split; discriminate.
    + rewrite orb_true_r in E. discriminate.
Qed.

(** X5. A submission from the input (button or Enter) is dropped, leaving
    the state as it is, exactly when the input is blank or whitespace and no
    image is attached, or a request is in flight, or no language is chosen.
    A submission with a non-empty override (a suggestion) is dropped exactly
    in the last two cases. *)
Theorem handleSendMessage_refuses_iff (c : Clock) (s : AppState) :
  (handleSendMessage None c s = None
   <-> (forallb isWhiteSpace (inputValue s) = true
        /\ truthy_opt (attachment' s) = false)
       \/ isLoading s = true
       \/ selectedLanguage s = None)
  /\ (forall sug, sug <> [] ->
        (handleSendMessage (Some sug) c s = None
         <-> isLoading s = true \/ selectedLanguage s = None)).
Proof.
  split; [|intros sug Hsug]; rewrite handleSendMessage_None_iff;
    unfold send_refused; rewrite !orb_true_iff.
  - rewrite textToSend_typed, andb_true_iff, !negb_true_iff, truthy_false,
      trim_nil_iff.
    destruct (selectedLanguage s); intuition congruence.
  - rewrite (textToSend_override _ _ Hsug).
    apply truthy_true in Hsug. rewrite Hsug. simpl.
    destruct (selectedLanguage s); intuition congruence.
Qed.

(** X6. With a language chosen, the send button is disabled exactly when
    [handleSendMessage] would drop the submission, so Enter in a state where
    the button is disabled does nothing. *)
Theorem send_disabled_iff_refused (c : Clock) (s : AppState) (lang : Language) :
  selectedLanguage s = Some lang ->
  (send_disabled s = true <-> handleSendMessage None c s = None).
Proof.
  intros Hl. rewrite handleSendMessage_None_iff.
  unfold send_disabled, send_refused. rewrite Hl, orb_false_r. reflexivity.
Qed.

Lemma send_disabled_iff_refused_witness :
  send_disabled (chatReady (js "   ")) = true
  <-> handleSendMessage None clock0 (chatReady (js "   ")) = None.
Proof.
  apply (send_disabled_iff_refused clock0 (chatReady (js "   ")) az).
  reflexivity.
Defined.

(** X7. An accepted submission clears the input and the attachment, raises
    the loading flag and appends one user message, which has a text or an
    image; view, preview document and library are untouched. *)
Theorem handleSendMessage_effects (o : option jsstring) (c : Clock)
    (s s' : AppState) (task : Promise Reaction) :
  handleSendMessage o c s = Some (s', task) ->
  let m := newUserMessage o c s in
  inputValue s' = [] /\ attachment' s' = None /\ isLoading s' = true
  /\ messages s' = messages s ++ [m]
  /\ sender m = USER
  /\ (text m <> [] \/ exists a, attachment m = Some a /\ a <> [])
  /\ currentView s' = currentView s
  /\ previewCode s' = previewCode s
  /\ projects' s' = projects' s
  /\ selectedLanguage s' = selectedLanguage s.
Proof.
  intros Hs m. pose proof (handleSendMessage_accepts _ _ _ _ _ Hs) as [Hg _].
  unfold handleSendMessage in Hs. rewrite Hg in Hs.
  destruct (selectedLanguage s) as [lang|] eqn:Hl; [|discriminate].
  injection Hs as <- _. simpl. repeat split; auto.
  unfold send_refused in Hg. rewrite Hl, orb_false_r in Hg.
  apply orb_false_iff in Hg as [Hg _].
  subst m. unfold newUserMessage. cbn [text attachment].
  destruct (textToSend o s) as [|x0 x]; [|left; discriminate].
  right. destruct (attachment' s) as [[|a0 a]|]; simpl in *; try discriminate.
  exists (a0 :: a). split; [reflexivity | discriminate].
Qed.

Lemma handleSendMessage_effects_witness :
  exists s' m,
    m = newUserMessage None clock0 (chatReady (js " salam "))
    /\ text m = js "salam"
    /\ inputValue s' = [] /\ attachment' s' = None /\ isLoading s' = true
    /\ messages s' = messages (chatReady (js " salam ")) ++ [m].
Proof.
  destruct (handleSendMessage None clock0 (chatReady (js " salam ")))
    as [[s' task]|] eqn:E.
  - destruct (handleSendMessage_effects None clock0 (chatReady (js " salam "))
                s' task E) as (H1 & H2 & H3 & H4 & _).
    exists s', (newUserMessage None clock0 (chatReady (js " salam "))).
    repeat split; auto.
  - vm_compute in E. discriminate E.
Defined.

End SendingMore.

(** ** The reply to a submission *)

Section Reply.

Lemma resume_reaction t c' (task : Promise Reaction) (r : Reaction) s0 :
  run t task = Returned r -> resume t c' task s0 = setIsLoading false (r c' s0).
Proof. unfold resume. now intros ->. Qed.

Lemma generateImage_run t prompt :
  (exists b, run t (generateImage prompt) = Returned b)
  \/ run t (generateImage prompt) = Threw (Error imageBusyMessage).
Proof.
  unfold generateImage. rewrite run_try_catch, run_bind, run_await.
  destruct (t _ _) as [r|e]; [|now right].
  destruct (run t (first_image_bytes r)) as [b|e]; [left; now exists b | now right].
Qed.

Lemma sendMessageToGemini_run t H M img language :
  (exists x, run t (sendMessageToGemini H M img language) = Returned x)
  \/ run t (sendMessageToGemini H M img language)
     = Threw (Error connectionLostMessage).
Proof.
  unfold sendMessageToGemini. rewrite run_try_catch, run_bind, run_await.
  destruct (t _ _) as [r|e]; [|now right].
  left. destruct (response_text r) as [x|]; [destruct (truthy x)|]; eexists;
    reflexivity.
Qed.

Lemma errorText_busy : errorText (Error imageBusyMessage) = imageBusyMessage.
Proof. vm_compute. reflexivity. Qed.

Lemma errorText_lost :
  errorText (Error connectionLostMessage) = connectionLostMessage.
Proof. vm_compute. reflexivity. Qed.

(** The three ways the [try] block of [handleSendMessage] ends. *)
Lemma send_task_run o c s lang t :
  (takes_image_path o s = true
   /\ run t (generateImage (textToSend o s)) = Threw (Error imageBusyMessage)
   /\ run t (send_task o c s lang)
      = Returned (fun c' => append_message (errorReply c' imageBusyMessage)))
  \/ (takes_image_path o s = false
      /\ run t (sendMessageToGemini (messages s ++ [newUserMessage o c s])
                  (textToSend o s) (attachment' s) (langMap lang))
         = Threw (Error connectionLostMessage)
      /\ run t (send_task o c s lang)
         = Returned (fun c' => append_message (errorReply c' connectionLostMessage)))
  \/ (exists b,
        takes_image_path o s = true
        /\ run t (generateImage (textToSend o s)) = Returned b
        /\ run t (send_task o c s lang)
           = Returned (fun c' => append_message (imageReply c' b)))
  \/ (exists x,
        takes_image_path o s = false
        /\ run t (sendMessageToGemini (messages s ++ [newUserMessage o c s])
                    (textToSend o s) (attachment' s) (langMap lang))
           = Returned x
        /\ run t (send_task o c s lang)
           = Returned (fun c' => append_message (textReply c' x))).
Proof.
  unfold send_task, takes_image_path. rewrite run_try_catch.
  destruct (_ && _) eqn:Epath; rewrite run_bind.
  - destruct (generateImage_run t (textToSend o s)) as [[b Er] | Er]; rewrite Er.
    + right; right; left. exists b. repeat split.
    + left. split; [reflexivity|]. split; [reflexivity|].
      cbn [run]. unfold errorReply. now rewrite errorText_busy.
  - destruct (sendMessageToGemini_run t (messages s ++ [newUserMessage o c s])
                (textToSend o s) (attachment' s) (langMap lang))
      as [[x Er] | Er]; rewrite Er.
    + right; right; right. exists x. repeat split.
    + right; left. split; [reflexivity|]. split; [reflexivity|].
      cbn [run]. unfold errorReply. now rewrite errorText_lost.
Qed.

Lemma generateImage_rejected (t : Transport) prompt e :
  t _ (generateImages (generateImages_request prompt)) = Rejected e ->
  run t (generateImage prompt) = Threw (Error imageBusyMessage).
Proof.
  intros E. unfold generateImage.
  now rewrite run_try_catch, run_bind, run_await, E.
Qed.

Lemma sendMessageToGemini_rejected (t : Transport) H M img language e :
  t _ (generateContent (generateContent_request H M img language)) = Rejected e ->
  run t (sendMessageToGemini H M img language)
  = Threw (Error connectionLostMessage).
Proof.
  intros E. unfold sendMessageToGemini.
  now rewrite run_try_catch, run_bind, run_await, E.
Qed.

Lemma sendMessageToGemini_fulfilled (t : Transport) H M img language r :
  t _ (generateContent (generateContent_request H M img language)) = Fulfilled r ->
  run t (sendMessageToGemini H M img language)
  = Returned (match response_text r with
              | Some x => if truthy x then x else blockedNotice
              | None => blockedNotice
              end).
Proof.
  intros E. unfold sendMessageToGemini.
  rewrite run_try_catch, run_bind, run_await, E.
  destruct (response_text r) as [x|]; [destruct (truthy x)|]; reflexivity.
Qed.

Lemma blockedNotice_truthy : blockedNotice <> [].
Proof. vm_compute. discriminate. Qed.

Lemma sendMessageToGemini_returned_truthy (t : Transport) H M img language x :
  run t (sendMessageToGemini H M img language) = Returned x -> x <> [].
Proof.
  destruct (t _ (generateContent (generateContent_request H M img language)))
    as [r|e] eqn:E.
  - rewrite (sendMessageToGemini_fulfilled _ _ _ _ _ _ E).
    intros Hx; injection Hx as <-.
    destruct (response_text r) as [y|]; [|apply blockedNotice_truthy].
    destruct (truthy y) eqn:Ty; [now apply truthy_true|apply blockedNotice_truthy].
  - rewrite (sendMessageToGemini_rejected _ _ _ _ _ _ E). discriminate.
Qed.

(** X8. Whatever the transport does, resuming a submission appends exactly
    one message to the conversation of that moment and lowers the loading
    flag.  The message is from the bot, has a non-empty text, and when it is
    flagged as an error its text is one of the two domain messages: neither
    a raw transport message nor the generic fallback is ever shown. *)
Theorem send_task_settles (o : option jsstring) (c : Clock) (s : AppState)
    (lang : Language) (t : Transport) (c' : Clock) (s0 : AppState) :
  exists m,
    resume t c' (send_task o c s lang) s0
      = setIsLoading false (append_message m s0)
    /\ sender m = BOT
    /\ id m = toString (now c' + 1)
    /\ text m <> []
    /\ (isError m = Some true ->
        text m = imageBusyMessage \/ text m = connectionLostMessage).
Proof.
  assert (Hcap : js "Buyur, istədiyin o mükəmməl təsvir:" <> [])
    by (vm_compute; discriminate).
  assert (Hbusy : imageBusyMessage <> []) by (vm_compute; discriminate).
  assert (Hlost : connectionLostMessage <> []) by (vm_compute; discriminate).
  destruct (send_task_run o c s lang t)
    as [(_ & _ & Hr) | [(_ & _ & Hr) | [(b & _ & _ & Hr) | (x & _ & Hx & Hr)]]];
    rewrite (resume_reaction _ _ _ _ _ Hr).
  - exists (errorReply c' imageBusyMessage).
    split; [reflexivity|]. split; [reflexivity|]. split; [reflexivity|].
    split; [exact Hbusy|]. intros _. now left.
  - exists (errorReply c' connectionLostMessage).
    split; [reflexivity|]. split; [reflexivity|]. split; [reflexivity|].
    split; [exact Hlost|]. intros _. now right.
  - exists (imageReply c' b).
    split; [reflexivity|]. split; [reflexivity|]. split; [reflexivity|].
    split; [exact Hcap|]. intros E. discriminate E.
  - exists (textReply c' x).
    split; [reflexivity|]. split; [reflexivity|]. split; [reflexivity|].
    split; [|intros E; discriminate E].
    exact (sendMessageToGemini_returned_truthy _ _ _ _ _ _ Hx).
Qed.

(** X9. When the transport rejects the call a submission makes, the reply is
    an error message: the image-service-busy text on the image path, the
    connection-lost text on the text path. *)
Theorem send_task_reports_rejection (o : option jsstring) (c : Clock)
    (s : AppState) (lang : Language) (t : Transport) (c' : Clock)
    (s0 : AppState) :
  rejects_first t (send_task o c s lang) ->
  resume t c' (send_task o c s lang) s0
  = setIsLoading false
      (append_message
         (errorReply c' (if takes_image_path o s then imageBusyMessage
                         else connectionLostMessage)) s0).
Proof.
  unfold rejects_first. intros Hrej.
  destruct (takes_image_path o s) eqn:Ep.
  - rewrite (send_task_image_path _ _ _ _ Ep) in Hrej. destruct Hrej as [e He].
    pose proof (generateImage_rejected _ _ _ He) as Hthrow.
    destruct (send_task_run o c s lang t)
      as [(_ & _ & Hr) | [(Ep' & _) | [(b & _ & Hb & _) | (x & Ep' & _)]]];
      try congruence.
    now rewrite (resume_reaction _ _ _ _ _ Hr).
  - rewrite (send_task_text_path _ _ _ _ Ep) in Hrej. destruct Hrej as [e He].
    pose proof (sendMessageToGemini_rejected _ _ _ _ _ _ He) as Hthrow.
    destruct (send_task_run o c s lang t)
      as [(Ep' & _) | [(_ & _ & Hr) | [(b & Ep' & _) | (x & _ & Hx & _)]]];
      try congruence.
    now rewrite (resume_reaction _ _ _ _ _ Hr).
Qed.

Lemma send_task_reports_rejection_witness :
  resume offline clock0 (send_task None clock0 (chatReady (js "salam")) az)
    (chatReady [])
  = setIsLoading false
      (append_message
         (errorReply clock0
            (if takes_image_path None (chatReady (js "salam"))
             then imageBusyMessage else connectionLostMessage))
         (chatReady [])).
Proof.
  apply (send_task_reports_rejection None clock0 (chatReady (js "salam")) az
           offline clock0 (chatReady [])).
  vm_compute. eexists. reflexivity.
Defined.

(** X10. On the text path, a fulfilled call is answered with an ordinary bot
    message carrying the text of the response; when that text is absent or
    empty the message carries the blocked notice, and it is not flagged as
    an error. *)
Theorem send_task_text_reply (o : option jsstring) (c : Clock) (s : AppState)
    (lang : Language) (t : Transport) (c' : Clock) (s0 : AppState)
    (r : GenerateContentResponse) :
  takes_image_path o s = false ->
  t _ (generateContent
         (generateContent_request (messages s ++ [newUserMessage o c s])
            (textToSend o s) (attachment' s) (langMap lang)))
    = Fulfilled r ->
  resume t c' (send_task o c s lang) s0
  = setIsLoading false
      (append_message
         (textReply c' (match response_text r with
                        | Some x => if truthy x then x else blockedNotice
                        | None => blockedNotice
                        end)) s0).
Proof.
  intros Ep Hr. pose proof (sendMessageToGemini_fulfilled _ _ _ _ _ _ Hr) as Hret.
  destruct (send_task_run o c s lang t)
    as [(Ep' & _) | [(_ & Hx & _) | [(b & Ep' & _) | (x & _ & Hx & Hrun)]]];
    try congruence.
  rewrite (resume_reaction _ _ _ _ _ Hrun). congruence.
Qed.

Lemma send_task_text_reply_witness :
  resume silent clock0 (send_task None clock0 (chatReady (js "salam")) az)
    (chatReady [])
  = setIsLoading false
      (append_message
         (textReply clock0
            (match response_text {| response_text := Some [] |} with
             | Some x => if truthy x then x else blockedNotice
             | None => blockedNotice
             end)) (chatReady [])).
Proof.
  apply (send_task_text_reply None clock0 (chatReady (js "salam")) az silent
           clock0 (chatReady []) {| response_text := Some [] |}).
  - vm_compute. reflexivity.
  - reflexivity.
Defined.

(** X11. On the image path, a call fulfilled with at least one image whose
    [image] field is present is answered with the fixed caption and the
    bytes of the first image as attachment; when those bytes are absent the
    caption is still posted, without attachment and without error flag. *)
Theorem send_task_image_reply (o : option jsstring) (c : Clock) (s : AppState)
    (lang : Language) (t : Transport) (c' : Clock) (s0 : AppState)
    (r : GenerateImagesResponse) (g : GeneratedImage)
    (rest : list GeneratedImage) (i : Image) :
  takes_image_path o s = true ->
  t _ (generateImages (generateImages_request (textToSend o s))) = Fulfilled r ->
  generatedImages r = Some (g :: rest) ->
  image g = Some i ->
  resume t c' (send_task o c s lang) s0
  = setIsLoading false (append_message (imageReply c' (imageBytes i)) s0).
Proof.
  intros Ep Hr Hg Hi.
  assert (Hret : run t (generateImage (textToSend o s)) = Returned (imageBytes i)).
  { unfold generateImage. rewrite run_try_catch, run_bind, run_await, Hr.
    unfold first_image_bytes. now rewrite Hg, Hi. }
  destruct (send_task_run o c s lang t)
    as [(_ & Hx & _) | [(Ep' & _) | [(b & _ & Hb & Hrun) | (x & Ep' & _)]]];
    try congruence.
  rewrite (resume_reaction _ _ _ _ _ Hrun). congruence.
Qed.

Lemma send_task_image_reply_witness :
  resume painter clock0
    (send_task None clock0 (chatReady (js "draw a photo")) az) (chatReady [])
  = setIsLoading false
      (append_message
         (imageReply clock0 (imageBytes {| imageBytes := Some (js "QUJD") |}))
         (chatReady [])).
Proof.
  apply (send_task_image_reply None clock0 (chatReady (js "draw a photo")) az
           painter clock0 (chatReady [])
           {| generatedImages :=
                Some [ {| image := Some {| imageBytes := Some (js "QUJD") |} |} ] |}
           {| image := Some {| imageBytes := Some (js "QUJD") |} |} []
           {| imageBytes := Some (js "QUJD") |}).
  - vm_compute. reflexivity.
  - reflexivity.
  - reflexivity.
  - reflexivity.
Defined.

End Reply.

(** ** Sessions *)

Section Sessions.

Lemma send_task_settles_once o c s lang : settles_once (send_task o c s lang).
Proof.
  intros t c' s0.
  destruct (send_task_run o c s lang t)
    as [(_ & _ & Hr) | [(_ & _ & Hr) | [(b & _ & _ & Hr) | (x & _ & _ & Hr)]]];
    rewrite (resume_reaction _ _ _ _ _ Hr); eexists; reflexivity.
Qed.

Lemma grows_refl s : grows s s.
Proof. split; [exists []; now rewrite app_nil_r | auto]. Qed.

Lemma grows_trans s1 s2 s3 : grows s1 s2 -> grows s2 s3 -> grows s1 s3.
Proof.
  intros [[x Hx] H1] [[y Hy] H2]. split; [|auto].
  exists (x ++ y). now rewrite Hy, Hx, app_assoc.
Qed.

(** An update that leaves conversation, language and loading flag alone. *)
Lemma wf_frame u s' :
  session_wf u ->
  selectedLanguage s' = selectedLanguage (app u) ->
  messages s' = messages (app u) ->
  isLoading s' = isLoading (app u) ->
  session_wf {| app := s'; inflight := inflight u |} /\ grows (app u) s'.
Proof.
  intros (Hh & Ho & Hf & Hn) El Em Ei. split; [split; [|split; [|split]]|].
  - unfold history_ok in *. simpl. now rewrite El, Em.
  - unfold one_in_flight in *. simpl. now rewrite Ei.
  - exact Hf.
  - simpl. now rewrite El.
  - split; [exists []; now rewrite app_nil_r, Em | intros l; now rewrite El].
Qed.

Lemma history_ok_append s m :
  selectedLanguage s <> None -> history_ok s ->
  forall s', selectedLanguage s' = selectedLanguage s ->
             messages s' = messages s ++ [m] -> history_ok s'.
Proof.
  unfold history_ok. intros Hl Hh s' El Em. rewrite El, Em.
  destruct (selectedLanguage s); [|congruence].
  destruct Hh as (w & rest & -> & Hw). exists w, (rest ++ [m]). auto.
Qed.

Lemma send_wf o c u u' :
  send o c u = Some u' -> session_wf u ->
  session_wf u' /\ grows (app u) (app u').
Proof.
  unfold send. intros Hs Hwf.
  destruct (handleSendMessage o c (app u)) as [[s' task]|] eqn:E.
  - injection Hs as <-.
    pose proof (handleSendMessage_accepts _ _ _ _ _ E) as (Hg & lang & Hl & ->).
    unfold handleSendMessage in E. rewrite Hg, Hl in E. injection E as <-.
    destruct Hwf as (Hh & Ho & Hf & Hn).
    unfold send_refused in Hg. apply orb_false_iff in Hg as [Hg _].
    apply orb_false_iff in Hg as [_ Hload].
    unfold one_in_flight in Ho.
    destruct (inflight u) as [|t0 [|t1 r]] eqn:Ei; try contradiction;
      [|congruence].
    split; [split; [|split; [|split]]|]; simpl.
    + eapply history_ok_append; [| exact Hh | reflexivity | reflexivity].
      congruence.
    + reflexivity.
    + constructor; [apply send_task_settles_once | constructor].
    + simpl. congruence.
    + split; [eexists; reflexivity | auto].
  - injection Hs as <-. split; [exact Hwf | apply grows_refl].
Qed.

Lemma settle_wf i t c u task rest :
  take_task i (inflight u) = Some (task, rest) -> session_wf u ->
  session_wf {| app := resume t c task (app u); inflight := rest |}
  /\ grows (app u) (resume t c task (app u)).
Proof.
  intros Ht (Hh & Ho & Hf & Hn).
  unfold one_in_flight in Ho.
  destruct (inflight u) as [|t0 [|t1 r]] eqn:Ei; try contradiction.
  - destruct i; discriminate.
  - destruct i as [|i]; simpl in Ht; [|destruct i; discriminate].
    injection Ht as <- <-.
    inversion Hf as [|? ? Hs _]; subst.
    destruct (Hs t c (app u)) as [m Hm]. rewrite Hm.
    assert (Hl : selectedLanguage (app u) <> None).
    { intros E. specialize (Hn E). discriminate. }
    split; [split; [|split; [|split]]|]; simpl.
    + eapply history_ok_append; [exact Hl | exact Hh | reflexivity | reflexivity].
    + reflexivity.
    + constructor.
    + reflexivity.
    + split; [eexists; reflexivity | auto].
Qed.

Lemma select_wf lang c u :
  selectedLanguage (app u) = None -> session_wf u ->
  session_wf {| app := handleLanguageSelect lang c (app u);
                inflight := inflight u |}
  /\ grows (app u) (handleLanguageSelect lang c (app u)).
Proof.
  intros Hlang (Hh & Ho & Hf & Hn). unfold history_ok in Hh.
  rewrite Hlang in Hh.
  split; [split; [|split; [|split]]|]; simpl.
  - unfold history_ok. simpl. eexists _, []. repeat split.
  - exact Ho.
  - exact Hf.
  - discriminate.
  - split; [rewrite Hh; eexists; reflexivity | intros l E; congruence].
Qed.

Ltac frame_case Hwf :=
  apply (wf_frame _ _ Hwf); reflexivity.

Ltac event_case :=
  match goal with
  | H : with_app _ _ = Some _ |- _ =>
    unfold with_app in H; injection H as <-
  | H : Some (mkSession _ _) = Some _ |- _ => injection H as <-
  | H : None = Some _ |- _ => discriminate H
  | H : (if ?b then _ else _) = Some _ |- _ => destruct b eqn:?
  | H : match ?x with _ => _ end = Some _ |- _ => destruct x eqn:?
  end.

Lemma step_wf (e : Event) (u u' : Session) :
  step e u = Some u' -> session_wf u ->
  session_wf u' /\ grows (app u) (app u').
Proof.
  intros Hstep Hwf. unfold step in Hstep.
  destruct (selectedLanguage (app u)) as [lang|] eqn:Hlang;
    destruct e; try discriminate Hstep;
    try (destruct (currentView (app u)) eqn:Hv; try discriminate Hstep).
  all: try (eapply send_wf; [exact Hstep | exact Hwf]).
  all: repeat event_case.
  all: try (eapply send_wf; [eassumption | exact Hwf]).
  all: try (eapply settle_wf; [eassumption | exact Hwf]).
  all: try (frame_case Hwf).
  all: try (unfold saveProject; destruct (negb _); frame_case Hwf).
  all: apply select_wf; assumption.
Qed.

Lemma steps_wf (es : list Event) (u u' : Session) :
  steps es u = Some u' -> session_wf u ->
  session_wf u' /\ grows (app u) (app u').
Proof.
  revert u. induction es as [|e es IH]; simpl; intros u.
  - intros E; injection E as <-. intros H. split; [exact H | apply grows_refl].
  - destruct (step e u) as [u1|] eqn:E; [|discriminate].
    intros Hs Hu. destruct (step_wf _ _ _ E Hu) as [Hu1 Hg1].
    destruct (IH u1 Hs Hu1) as [Hu' Hg']. split; [exact Hu'|].
    eapply grows_trans; eauto.
Qed.

Lemma initialSession_wf : session_wf initialSession.
Proof. repeat split; simpl; auto. Qed.

End Sessions.

Section SessionProperties.

(** X12. In every reachable session at most one submission is suspended,
    and the loading flag is up exactly while one is: the flag alone keeps a
    second request from being issued. *)
Theorem one_request_at_a_time (es : list Event) (u : Session) :
  steps es initialSession = Some u ->
  (List.length (inflight u) <= 1)%nat
  /\ (isLoading (app u) = true <-> inflight u <> [])
  /\ (isLoading (app u) = true ->
      forall o c, send o c u = Some u).
Proof.
  intros Hs.
  destruct (steps_wf _ _ _ Hs initialSession_wf) as [(_ & Ho & _) _].
  unfold one_in_flight in Ho.
  split; [|split].
  - destruct (inflight u) as [|t0 [|t1 r]]; simpl; try lia; contradiction.
  - destruct (inflight u) as [|t0 [|t1 r]]; try contradiction; rewrite Ho;
      split; congruence.
  - intros Hl o c. unfold send, handleSendMessage, send_refused.
    rewrite Hl, orb_true_r. reflexivity.
Qed.

Lemma one_request_at_a_time_witness :
  (List.length (inflight askSession) <= 1)%nat
  /\ (isLoading (app askSession) = true <-> inflight askSession <> [])
  /\ (isLoading (app askSession) = true ->
      forall o c, send o c askSession = Some askSession).
Proof.
  apply (one_request_at_a_time askEvents askSession).
  vm_compute. reflexivity.
Defined.

(** X13. The conversation is append-only: whatever events follow a
    reachable session, its messages remain, in order, as the beginning of
    the later conversation.  Changing view, saving, opening or deleting
    projects never removes or rewrites a message. *)
Theorem history_append_only (es1 es2 : list Event) (u u' : Session) :
  steps es1 initialSession = Some u ->
  steps es2 u = Some u' ->
  exists suffix, messages (app u') = messages (app u) ++ suffix.
Proof.
  intros H1 H2.
  destruct (steps_wf _ _ _ H1 initialSession_wf) as [Hwf _].
  destruct (steps_wf _ _ _ H2 Hwf) as [_ [Hg _]]. exact Hg.
Qed.

Lemma history_append_only_witness :
  exists suffix,
    messages (app answeredSession) = messages (app askSession) ++ suffix.
Proof.
  apply (history_append_only askEvents [Settle 0 painter clock0]
           askSession answeredSession).
  - vm_compute. reflexivity.
  - vm_compute. reflexivity.
Defined.

(** X14. A chosen language is final: no sequence of events changes it or
    brings the language screen back. *)
Theorem language_is_final (es1 es2 : list Event) (u u' : Session)
    (l : Language) :
  steps es1 initialSession = Some u ->
  steps es2 u = Some u' ->
  selectedLanguage (app u) = Some l ->
  selectedLanguage (app u') = Some l
  /\ forall l' c, step (SelectLanguage l' c) u' = None.
Proof.
  intros H1 H2 Hl.
  destruct (steps_wf _ _ _ H1 initialSession_wf) as [Hwf _].
  destruct (steps_wf _ _ _ H2 Hwf) as [_ [_ Hg]].
  specialize (Hg l Hl). split; [exact Hg|].
  intros l' c. unfold step. now rewrite Hg.
Qed.

Lemma language_is_final_witness :
  selectedLanguage (app answeredSession) = Some az
  /\ forall l' c, step (SelectLanguage l' c) answeredSession = None.
Proof.
  apply (language_is_final askEvents [Settle 0 painter clock0]
           askSession answeredSession az).
  - vm_compute. reflexivity.
  - vm_compute. reflexivity.
  - vm_compute. reflexivity.
Defined.

(** X15. Every text request of a reachable session opens with a model
    turn: the welcome message of the chosen language, which is the first
    entry of every conversation. *)
Theorem requests_open_with_welcome (es : list Event) (u : Session)
    (o : option jsstring) (c : Clock) (s' : AppState)
    (task : Promise Reaction) :
  steps es initialSession = Some u ->
  handleSendMessage o c (app u) = Some (s', task) ->
  takes_image_path o (app u) = false ->
  exists lang req rest,
    selectedLanguage (app u) = Some lang
    /\ first_call task = Some (existT _ _ (generateContent req))
    /\ gc_contents req
       = {| role := js "model";
            parts := [TextPart (WELCOME_MESSAGES lang)] |} :: rest.
Proof.
  intros Hs Hh Hp.
  destruct (steps_wf _ _ _ Hs initialSession_wf) as [(Hok & _) _].
  apply handleSendMessage_accepts in Hh as (_ & lang & Hl & ->).
  unfold history_ok in Hok. rewrite Hl in Hok.
  destruct Hok as (w & rest & Hm & _ & Hsender & Htext & Hatt).
  exists lang. eexists. eexists.
  split; [exact Hl|]. split; [apply (send_task_text_path _ _ _ _ Hp)|].
  simpl. unfold build_contents. rewrite Hm. simpl. f_equal.
  unfold history_turn. rewrite Hsender, Htext, Hatt. simpl.
  destruct lang; vm_compute; reflexivity.
Qed.

Lemma requests_open_with_welcome_witness :
  exists lang req rest,
    selectedLanguage (chatReady (js "salam")) = Some lang
    /\ first_call (send_task None clock0 (chatReady (js "salam")) az)
       = Some (existT _ _ (generateContent req))
    /\ gc_contents req
       = {| role := js "model";
            parts := [TextPart (WELCOME_MESSAGES lang)] |} :: rest.
Proof.
  eapply (requests_open_with_welcome
            [SelectLanguage az clock0; TypeInput (js "salam")]
            {| app := chatReady (js "salam"); inflight := [] |} None clock0).
  - vm_compute. reflexivity.
  - vm_compute. reflexivity.
  - vm_compute. reflexivity.
Defined.

(** X16. Once a reachable conversation holds three messages, the row of
    suggestions is gone for good: it is not rendered in any later state and
    no suggestion can be clicked. *)
Theorem suggestions_do_not_return (es1 es2 : list Event) (u u' : Session) :
  steps es1 initialSession = Some u ->
  (3 <= List.length (messages (app u)))%nat ->
  steps es2 u = Some u' ->
  suggestions_shown (app u') = false
  /\ forall i c, step (Suggestion i c) u' = None.
Proof.
  intros H1 Hlen H2.
  destruct (steps_wf _ _ _ H1 initialSession_wf) as [Hwf _].
  destruct (steps_wf _ _ _ H2 Hwf) as [_ [[suffix Hg] _]].
  assert (Hlt : Nat.ltb (List.length (messages (app u'))) 3 = false).
  { apply Nat.ltb_ge. rewrite Hg, length_app. lia. }
  split.
  - unfold suggestions_shown. now rewrite Hlt.
  - intros i c. unfold step.
    destruct (selectedLanguage (app u')); [|reflexivity].
    destruct (currentView (app u')); try reflexivity. now rewrite Hlt.
Qed.

Lemma suggestions_do_not_return_witness :
  suggestions_shown (app answeredSession) = false
  /\ forall i c, step (Suggestion i c) answeredSession = None.
Proof.
  apply (suggestions_do_not_return (askEvents ++ [Settle 0 painter clock0]) []
           answeredSession answeredSession).
  - vm_compute. reflexivity.
  - vm_compute. lia.
  - reflexivity.
Defined.

End SessionProperties.

(** ** The project library, continued *)

Section LibraryMore.

Lemma str_eqb_refl (s : jsstring) : str_eqb s s = true.
Proof. now apply str_eqb_eq. Qed.

Lemma str_eqb_neq (s t : jsstring) : str_eqb s t = false <-> s <> t.
Proof.
  rewrite <- str_eqb_eq. destruct (str_eqb s t); split; congruence.
Qed.

(** X17. [deleteProject] removes every project with the given id, keeps the
    others in their order, and touches neither the view nor the document
    under preview, even when that document came from a deleted project. *)
Theorem deleteProject_removes (pid : jsstring) (s : AppState) :
  (forall p, In p (projects' (deleteProject pid s))
             <-> In p (projects' s) /\ p_id p <> pid)
  /\ (forall p q before after,
        projects' (deleteProject pid s) = before ++ p :: q :: after ->
        exists l1 l2 l3, projects' s = l1 ++ p :: l2 ++ q :: l3)
  /\ currentView (deleteProject pid s) = currentView s
  /\ previewCode (deleteProject pid s) = previewCode s.
Proof.
  split; [|split; [|split; reflexivity]].
  - intros p. simpl. rewrite filter_In, negb_true_iff, str_eqb_neq. tauto.
  - simpl. generalize (projects' s) as l.
    induction l as [|x l IH]; intros p q before after; simpl.
    + destruct before; discriminate.
    + destruct (negb (str_eqb (p_id x) pid)).
      * destruct before as [|b before]; simpl; intros E; injection E as -> E.
        -- assert (Hq : In q (filter (fun p0 => negb (str_eqb (p_id p0) pid)) l))
             by (rewrite E; now left).
           apply filter_In in Hq as [Hq _]. apply in_split in Hq as [l2 [l3 ->]].
           now exists [], l2, l3.
        -- destruct (IH _ _ _ _ E) as (l1 & l2 & l3 & ->).
           now exists (b :: l1), l2, l3.
      * intros E. destruct (IH _ _ _ _ E) as (l1 & l2 & l3 & ->).
        now exists (x :: l1), l2, l3.
Qed.

(** X18. Saving a project and then deleting it gives back the library as it
    was, provided no older project carries the id of the new one; the id is
    the save's timestamp, so an older project saved in the same millisecond
    would be deleted with it. *)
Theorem save_then_delete (c : Clock) (s : AppState) :
  trim (projectNameInput s) <> [] ->
  projects' (deleteProject (toString (now c)) (saveProject c s))
  = filter (fun p => negb (str_eqb (p_id p) (toString (now c)))) (projects' s)
  /\ ((forall p, In p (projects' s) -> p_id p <> toString (now c)) ->
      projects' (deleteProject (toString (now c)) (saveProject c s))
      = projects' s).
Proof.
  intros H. apply truthy_true in H.
  assert (E : projects' (deleteProject (toString (now c)) (saveProject c s))
              = filter (fun p => negb (str_eqb (p_id p) (toString (now c))))
                  (projects' s)).
  { unfold saveProject. rewrite H. cbn -[toString].
    now rewrite str_eqb_refl. }
  split; [exact E|]. intros Hfresh. rewrite E.
  clear E. induction (projects' s) as [|x l IH]; simpl; [reflexivity|].
  assert (Hx : str_eqb (p_id x) (toString (now c)) = false)
    by (apply str_eqb_neq, Hfresh; now left).
  rewrite Hx. simpl. f_equal. apply IH. intros p Hp. apply Hfresh. now right.
Qed.

Lemma save_then_delete_witness :
  projects' (deleteProject (toString (now clock0))
               (saveProject clock0 (app saveDialog)))
  = filter (fun p => negb (str_eqb (p_id p) (toString (now clock0))))
      (projects' (app saveDialog))
  /\ ((forall p, In p (projects' (app saveDialog)) ->
                 p_id p <> toString (now clock0)) ->
      projects' (deleteProject (toString (now clock0))
                   (saveProject clock0 (app saveDialog)))
      = projects' (app saveDialog)).
Proof.
  apply (save_then_delete clock0 (app saveDialog)).
  vm_compute. discriminate.
Defined.

(** X19. From the save dialog with a usable name: saving, going back to the
    chat, opening the library and opening its first project is always
    possible, and lands in the preview view on the very document that was
    saved, with the dialog closed and its name field cleared. *)
Theorem save_then_reopen (c : Clock) (u : Session) (lang : Language) :
  selectedLanguage (app u) = Some lang ->
  currentView (app u) = preview ->
  showSaveDialog (app u) = true ->
  trim (projectNameInput (app u)) <> [] ->
  exists u' p,
    steps [ClickSave c; ClickBack; ClickProjects; ClickOpen 0] u = Some u'
    /\ currentView (app u') = preview
    /\ previewCode (app u') = previewCode (app u)
    /\ projects' (app u') = p :: projects' (app u)
    /\ p_name p = projectNameInput (app u)
    /\ p_code p = previewCode (app u)
    /\ showSaveDialog (app u') = false
    /\ projectNameInput (app u') = []
    /\ messages (app u') = messages (app u).
Proof.
  intros Hl Hv Hd Hn. apply truthy_true in Hn.
  set (p := {| p_id := toString (now c); p_name := projectNameInput (app u);
               p_code := previewCode (app u); p_thumbnail := None;
               p_createdAt := date c |}).
  set (s1 := setProjectNameInput []
               (setShowSaveDialog false
                  (setProjects (fun prev => p :: prev) (app u)))).
  assert (E1 : step (ClickSave c) u = Some {| app := s1; inflight := inflight u |}).
  { unfold step. rewrite Hl, Hv, Hd. unfold with_app, saveProject.
    now rewrite Hn. }
  set (s2 := setCurrentView chat s1).
  assert (E2 : step ClickBack {| app := s1; inflight := inflight u |}
               = Some {| app := s2; inflight := inflight u |}).
  { unfold step. cbn [app]. change (selectedLanguage s1) with (selectedLanguage (app u)).
    change (currentView s1) with (currentView (app u)). now rewrite Hl, Hv. }
  set (s3 := setCurrentView projects s2).
  assert (E3 : step ClickProjects {| app := s2; inflight := inflight u |}
               = Some {| app := s3; inflight := inflight u |}).
  { unfold step. cbn [app]. change (selectedLanguage s2) with (selectedLanguage (app u)).
    change (currentView s2) with chat. now rewrite Hl. }
  assert (E4 : step (ClickOpen 0) {| app := s3; inflight := inflight u |}
               = Some {| app := loadProject p s3; inflight := inflight u |}).
  { unfold step. cbn [app]. change (selectedLanguage s3) with (selectedLanguage (app u)).
    change (currentView s3) with projects. now rewrite Hl. }
  exists {| app := loadProject p s3; inflight := inflight u |}, p.
  split; [|repeat split].
  cbn [steps]. now rewrite E1, E2, E3, E4.
Qed.

Lemma save_then_reopen_witness :
  exists u' p,
    steps [ClickSave clock0; ClickBack; ClickProjects; ClickOpen 0] saveDialog
      = Some u'
    /\ currentView (app u') = preview
    /\ previewCode (app u') = previewCode (app saveDialog)
    /\ projects' (app u') = p :: projects' (app saveDialog)
    /\ p_name p = projectNameInput (app saveDialog)
    /\ p_code p = previewCode (app saveDialog)
    /\ showSaveDialog (app u') = false
    /\ projectNameInput (app u') = []
    /\ messages (app u') = messages (app saveDialog).
Proof.
  apply (save_then_reopen clock0 saveDialog az).
  - reflexivity.
  - reflexivity.
  - reflexivity.
  - vm_compute. discriminate.
Defined.

End LibraryMore.

(** ** The preview button, continued *)

Section Fences.

Lemma startsWith_app (s k rest : jsstring) :
  startsWith s k = true -> startsWith (s ++ rest) k = true.
Proof.
  rewrite !startsWith_spec. intros [post ->].
  exists (post ++ rest). now rewrite app_assoc.
Qed.

Lemma split_first_app (s k before after : jsstring) :
  split_first s k = Some (before, after) -> s = before ++ k ++ after.
Proof.
  revert before after. induction s as [|c s IH]; intros before after.
  - cbn [split_first]. destruct (startsWith [] k) eqn:E; [|discriminate].
    intros H; injection H as <- <-. destruct k; [reflexivity | discriminate].
  - cbn [split_first]. destruct (startsWith (c :: s) k) eqn:E.
    + intros H; injection H as <- <-.
      apply startsWith_spec in E as [post E]. rewrite E at 1.
      rewrite E, skipn_app, Nat.sub_diag, skipn_all. reflexivity.
    + destruct (split_first s k) as [[b a]|]; [|discriminate].
      intros H; injection H as <- <-. simpl. f_equal. now apply IH.
Qed.

Lemma split_first_none (s k : jsstring) :
  split_first s k = None <-> includes s k = false.
Proof.
  induction s as [|c s IH]; cbn [split_first includes].
  - destruct (startsWith [] k); simpl; split; congruence.
  - destruct (startsWith (c :: s) k); simpl.
    + split; discriminate.
    + rewrite <- IH. destruct (split_first s k) as [[b a]|]; split; congruence.
Qed.

(** The text before the first occurrence holds no occurrence. *)
Lemma split_first_minimal (s k before after : jsstring) :
  k <> [] -> split_first s k = Some (before, after) ->
  includes before k = false.
Proof.
  intros Hk. revert before after.
  induction s as [|c s IH]; intros before after; cbn [split_first].
  - destruct (startsWith [] k) eqn:E; [|discriminate].
    destruct k; [congruence | discriminate].
  - destruct (startsWith (c :: s) k) eqn:E.
    + intros H; injection H as <- <-. destruct k; [congruence | reflexivity].
    + destruct (split_first s k) as [[b a]|] eqn:Es; [|discriminate].
      intros H; injection H as <- <-. cbn [includes].
      rewrite (IH _ _ eq_refl), orb_false_r.
      destruct (startsWith (c :: b) k) eqn:Eb; [|reflexivity].
      apply split_first_app in Es. subst s.
      apply (startsWith_app _ _ (k ++ a)) in Eb. simpl in Eb, E. congruence.
Qed.

(** A word starting with [h] does not occur in a text without [h]. *)
Lemma includes_without_head (s : jsstring) (h : N) (k : jsstring) :
  ~ In h s -> includes s (h :: k) = false.
Proof.
  induction s as [|c s IH]; intros Hn; cbn [includes startsWith].
  - reflexivity.
  - assert (Hc : (h =? c) = false).
    { apply N.eqb_neq. intros ->. apply Hn. now left. }
    rewrite Hc. simpl. apply IH. intros Hin. apply Hn. now right.
Qed.

(** The first occurrence of a word starting with [h], after a text without
    [h], is right after that text. *)
Lemma split_first_at (pre : jsstring) (h : N) (k rest : jsstring) :
  ~ In h pre ->
  split_first (pre ++ (h :: k) ++ rest) (h :: k) = Some (pre, rest).
Proof.
  induction pre as [|c pre IH]; intros Hn.
  - assert (Hs : startsWith (k ++ rest) k = true)
      by (apply startsWith_spec; now exists rest).
    cbn [List.app split_first startsWith]. rewrite N.eqb_refl, Hs.
    cbn [andb List.length skipn].
    now rewrite skipn_app, Nat.sub_diag, skipn_all.
  - cbn [List.app split_first startsWith].
    assert (Hc : (h =? c) = false).
    { apply N.eqb_neq. intros ->. apply Hn. now left. }
    rewrite Hc. cbn [andb].
    assert (Hpre : ~ In h pre) by (intros Hin; apply Hn; now right).
    specialize (IH Hpre). cbn [List.app] in IH. now rewrite IH.
Qed.

(** X20. When [match_html] finds a fenced block, the text is
    [pre ++ "```html" ++ body ++ "```" ++ post], where [pre] holds no
    opening fence (the first block is taken) and [body] holds no closing
    fence (it ends at the first closing fence). *)
Theorem match_html_decomposes (text body : jsstring) :
  match_html text = Some body ->
  exists pre post,
    text = pre ++ fence_open ++ body ++ fence_close ++ post
    /\ includes pre fence_open = false
    /\ includes body fence_close = false.
Proof.
  unfold match_html.
  destruct (split_first text fence_open) as [[pre rest]|] eqn:E1; [|discriminate].
  destruct (split_first rest fence_close) as [[b post]|] eqn:E2; [|discriminate].
  intros H; injection H as <-. exists pre, post.
  pose proof (split_first_app _ _ _ _ E1) as ->.
  pose proof (split_first_app _ _ _ _ E2) as ->.
  assert (Ho : fence_open <> []) by (vm_compute; discriminate).
  assert (Hc : fence_close <> []) by (vm_compute; discriminate).
  split; [reflexivity|]. split.
  - apply (split_first_minimal _ _ _ _ Ho E1).
  - apply (split_first_minimal _ _ _ _ Hc E2).
Qed.

Lemma match_html_decomposes_witness :
  exists pre post,
    text fencedAnswer
    = pre ++ fence_open ++ js " <h1>Salam</h1> " ++ fence_close ++ post
    /\ includes pre fence_open = false
    /\ includes (js " <h1>Salam</h1> ") fence_close = false.
Proof.
  apply (match_html_decomposes (text fencedAnswer) (js " <h1>Salam</h1> ")).
  vm_compute. reflexivity.
Defined.

(** X21. A preview button is only ever offered on a bot message, and the
    document it opens is not empty.  It is either the trimmed body of the
    first fenced block, or, when the text holds no opening fence at all but
    a DOCTYPE line, the whole text. *)
Theorem preview_button_sound (msg : Message) (doc : jsstring) :
  preview_button msg = Some doc ->
  sender msg = BOT
  /\ doc <> []
  /\ ((exists body, match_html (text msg) = Some body /\ doc = trim body)
      \/ (includes (text msg) fence_open = false
          /\ includes (text msg) (js "<!DOCTYPE html>") = true
          /\ doc = text msg)).
Proof.
  intros Hb. split; [|split; [eapply preview_button_truthy; eauto|]].
  - unfold preview_button, htmlCode in Hb.
    destruct (sender msg); [discriminate | reflexivity].
  - unfold preview_button, htmlCode in Hb.
    destruct (sender msg); [discriminate|]. cbn [Sender_eqb negb andb] in Hb.
    destruct (includes (text msg) fence_open) eqn:Ef.
    + left. destruct (match_html (text msg)) as [m1|]; [|discriminate].
      exists m1. split; [reflexivity|].
      destruct (truthy m1); [|discriminate].
      destruct (truthy (trim m1)); [|discriminate]. congruence.
    + right. destruct (includes (text msg) (js "<!DOCTYPE html>"));
        [|discriminate].
      destruct (truthy (text msg)); [|discriminate].
      repeat split. congruence.
Qed.

Lemma preview_button_sound_witness :
  sender fencedAnswer = BOT
  /\ js "<h1>Salam</h1>" <> []
  /\ ((exists body, match_html (text fencedAnswer) = Some body
                    /\ js "<h1>Salam</h1>" = trim body)
      \/ (includes (text fencedAnswer) fence_open = false
          /\ includes (text fencedAnswer) (js "<!DOCTYPE html>") = true
          /\ js "<h1>Salam</h1>" = text fencedAnswer)).
Proof.
  apply (preview_button_sound fencedAnswer (js "<h1>Salam</h1>")).
  vm_compute. reflexivity.
Defined.

(** X22. An unterminated fence gives no preview: when the text is
    [pre ++ "```html" ++ rest] with no backtick in [pre] or [rest], no
    button is offered, even if [rest] holds a DOCTYPE line, because the
    DOCTYPE test is only made on texts without an opening fence. *)
Theorem unterminated_fence_has_no_button (msg : Message) (pre rest : jsstring) :
  text msg = pre ++ fence_open ++ rest ->
  ~ In backtick pre ->
  ~ In backtick rest ->
  htmlCode msg = None /\ preview_button msg = None.
Proof.
  intros Ht Hpre Hrest.
  assert (E : htmlCode msg = None); [|unfold preview_button; now rewrite E].
  unfold htmlCode. destruct (sender msg); [reflexivity|].
  cbn [Sender_eqb negb andb].
  assert (Hinc : includes (text msg) fence_open = true).
  { apply includes_spec. exists pre, rest. exact Ht. }
  rewrite Hinc. unfold match_html. rewrite Ht.
  change fence_open with (backtick :: tl fence_open).
  rewrite (split_first_at pre backtick (tl fence_open) rest Hpre).
  assert (Hno : split_first rest fence_close = None).
  { apply split_first_none.
    change fence_close with (backtick :: tl fence_close).
    now apply includes_without_head. }
  now rewrite Hno.
Qed.

Lemma unterminated_fence_has_no_button_witness :
  includes (text truncatedAnswer) (js "<!DOCTYPE html>") = true
  /\ htmlCode truncatedAnswer = None /\ preview_button truncatedAnswer = None.
Proof.
  split; [vm_compute; reflexivity|].
  apply (unterminated_fence_has_no_button truncatedAnswer (js "Buyur: ")
           (js " <!DOCTYPE html><html><body>Sal")).
  - reflexivity.
  - vm_compute. intuition discriminate.
  - vm_compute. intuition discriminate.
Defined.

End Fences.

(** ** The spoken text *)

Section SpokenText.

Lemma split_first_shorter (s k before after : jsstring) :
  split_first s k = Some (before, after) ->
  (List.length after + List.length k <= List.length s)%nat.
Proof.
  intros H. apply split_first_app in H. subst s.
  rewrite !length_app. lia.
Qed.

Lemma fence_length : List.length fence = 3%nat.
Proof. reflexivity. Qed.

(** Any fuel not below the length of the text gives the same result. *)
Lemma replace_fences_fuel (fuel1 fuel2 : nat) (text : jsstring) :
  (List.length text <= fuel1)%nat -> (List.length text <= fuel2)%nat ->
  replace_fences fuel1 text = replace_fences fuel2 text.
Proof.
  revert fuel2 text. induction fuel1 as [|fuel1 IH]; intros fuel2 text H1 H2.
  - destruct text; [|simpl in H1; lia]. destruct fuel2; reflexivity.
  - destruct fuel2 as [|fuel2].
    + destruct text; [reflexivity | simpl in H2; lia].
    + cbn [replace_fences].
      destruct (split_first text fence) as [[before opened]|] eqn:E1;
        [|reflexivity].
      destruct (split_first opened fence) as [[body rest]|] eqn:E2;
        [|reflexivity].
      apply split_first_shorter in E1, E2. rewrite fence_length in E1, E2.
      f_equal. f_equal. apply IH; lia.
Qed.

(** X23. What is read aloud for a text with one fenced block,
    [pre ++ "```" ++ body ++ "```" ++ post] with no backtick in [pre],
    [body] and [post], is [pre], the notice, and [post]: the code itself is
    never spoken. *)
Theorem fenced_block_is_not_spoken (message : Message)
    (pre body post : jsstring) :
  text message = pre ++ fence ++ body ++ fence ++ post ->
  ~ In backtick pre -> ~ In backtick body -> ~ In backtick post ->
  textToSpeak message = pre ++ codeNotice ++ post.
Proof.
  intros Ht Hpre Hbody Hpost. unfold textToSpeak.
  assert (Hno : split_first post fence = None).
  { apply split_first_none. change fence with (backtick :: tl fence).
    now apply includes_without_head. }
  assert (H1 : split_first (text message) fence
               = Some (pre, body ++ fence ++ post)).
  { rewrite Ht. change fence with (backtick :: tl fence) at 1 3.
    exact (split_first_at pre backtick (tl fence) _ Hpre). }
  assert (H2 : split_first (body ++ fence ++ post) fence = Some (body, post)).
  { change fence with (backtick :: tl fence) at 1 2.
    exact (split_first_at body backtick (tl fence) _ Hbody). }
  destruct (List.length (text message)) as [|n] eqn:El.
  - rewrite Ht, !length_app, fence_length in El. lia.
  - cbn [replace_fences]. rewrite H1, H2. f_equal. f_equal.
    destruct n; cbn [replace_fences]; [reflexivity | now rewrite Hno].
Qed.

Lemma fenced_block_is_not_spoken_witness :
  textToSpeak (botSays (js "Buyur: " ++ fence ++ js "html <h1>Salam</h1> "
                        ++ fence ++ js " hazirdir"))
  = js "Buyur: " ++ codeNotice ++ js " hazirdir".
Proof.
  apply (fenced_block_is_not_spoken _ (js "Buyur: ")
           (js "html <h1>Salam</h1> ") (js " hazirdir")).
  - vm_compute. reflexivity.
  - vm_compute. intuition discriminate.
  - vm_compute. intuition discriminate.
  - vm_compute. intuition discriminate.
Defined.

(** X24. A text without a complete fence is read aloud as it is: so is a
    text with no triple backtick, and so is a text whose only fence is
    never closed, code included. *)
Theorem unfenced_text_is_spoken_verbatim (message : Message) :
  (includes (text message) fence = false ->
   textToSpeak message = text message)
  /\ (forall pre rest,
        text message = pre ++ fence ++ rest ->
        ~ In backtick pre -> ~ In backtick rest ->
        textToSpeak message = text message).
Proof.
  unfold textToSpeak. split.
  - intros H. apply split_first_none in H.
    destruct (List.length (text message)); cbn [replace_fences];
      [reflexivity | now rewrite H].
  - intros pre rest Ht Hpre Hrest.
    destruct (List.length (text message)); cbn [replace_fences];
      [reflexivity|].
    rewrite Ht. change fence with (backtick :: tl fence) at 1 2.
    rewrite (split_first_at pre backtick (tl fence) rest Hpre).
    assert (Hno : split_first rest fence = None).
    { apply split_first_none. change fence with (backtick :: tl fence).
      now apply includes_without_head. }
    now rewrite Hno.
Qed.

Lemma unfenced_text_is_spoken_verbatim_witness :
  textToSpeak truncatedAnswer = text truncatedAnswer.
Proof.
  destruct (unfenced_text_is_spoken_verbatim truncatedAnswer) as [_ H].
  apply (H (js "Buyur: ") (js "html <!DOCTYPE html><html><body>Sal")).
  - vm_compute. reflexivity.
  - vm_compute. intuition discriminate.
  - vm_compute. intuition discriminate.
Defined.

End SpokenText.

(** ** The debug-panel key sequence *)

Section KeySequence.

Lemma slice_last4_suffix (x suf : jsstring) :
  (List.length suf <= 4)%nat ->
  exists y, slice_last4 (x ++ suf) = y ++ suf
            /\ (List.length y + List.length suf <= 4)%nat.
Proof.
  intros Hs. unfold slice_last4. rewrite length_app.
  exists (skipn (List.length x + List.length suf - 4) x). split.
  - rewrite skipn_app.
    replace (List.length x + List.length suf - 4 - List.length x)%nat
      with 0%nat by lia.
    reflexivity.
  - rewrite length_skipn. lia.
Qed.

(** After a key with a one-unit lower case, the buffer ends with the lower
    case of what it ended with, followed by that unit. *)
Lemma handleKeyDown_suffix (z suf : jsstring) (k : N) :
  (List.length suf < 4)%nat ->
  exists y,
    fst (handleKeyDown (z ++ suf) [k])
    = toLowerCase y ++ toLowerCase suf ++ lower_cp k
    /\ (List.length y + List.length suf < 4)%nat.
Proof.
  intros Hs. unfold handleKeyDown. cbn [fst].
  rewrite <- app_assoc.
  destruct (slice_last4_suffix z (suf ++ [k])) as [y [Hy Hl]].
  { rewrite length_app. simpl. lia. }
  exists y. rewrite Hy, !toLowerCase_app. split.
  - f_equal. f_equal. unfold toLowerCase. simpl. now rewrite app_nil_r.
  - rewrite length_app in Hl. simpl in Hl. lia.
Qed.

(** X25. Pressing the keys s, b, e, f in a row, in either case, opens the
    debug panel whatever was typed before, and leaves exactly [sbef] in the
    buffer. *)
Theorem sbef_opens_debug_panel (buffer : jsstring) (k1 k2 k3 k4 : N) :
  lower_cp k1 = js "s" -> lower_cp k2 = js "b" ->
  lower_cp k3 = js "e" -> lower_cp k4 = js "f" ->
  keydowns buffer [[k1]; [k2]; [k3]; [k4]] = (js "sbef", true).
Proof.
  intros H1 H2 H3 H4.
  destruct (handleKeyDown_suffix buffer [] k1) as [y1 [E1 _]]; [simpl; lia|].
  rewrite app_nil_r in E1.
  destruct (handleKeyDown_suffix (toLowerCase y1) (js "s") k2)
    as [y2 [E2 _]]; [simpl; lia|].
  destruct (handleKeyDown_suffix (toLowerCase y2) (js "sb") k3)
    as [y3 [E3 _]]; [simpl; lia|].
  destruct (handleKeyDown_suffix (toLowerCase y3) (js "sbe") k4)
    as [y4 [E4 L4]]; [simpl; lia|].
  assert (y4 = []) as -> by (destruct y4; [reflexivity | simpl in L4; lia]).
  rewrite H1 in E1. rewrite H2 in E2. rewrite H3 in E3. rewrite H4 in E4.
  cbn [List.app toLowerCase flat_map] in E1, E2, E3, E4.
  change (toLowerCase (js "s")) with (js "s") in E2.
  change (toLowerCase (js "sb")) with (js "sb") in E3.
  change (toLowerCase (js "sbe")) with (js "sbe") in E4.
  cbn [keydowns].
  destruct (handleKeyDown buffer [k1]) as [b1 o1] eqn:K1. cbn [fst] in E1.
  subst b1.
  destruct (handleKeyDown (toLowerCase y1 ++ js "s") [k2]) as [b2 o2] eqn:K2.
  cbn [fst] in E2. subst b2.
  change (toLowerCase y2 ++ js "s" ++ js "b")
    with (toLowerCase y2 ++ js "sb") in K2 |- *.
  destruct (handleKeyDown (toLowerCase y2 ++ js "sb") [k3]) as [b3 o3] eqn:K3.
  cbn [fst] in E3. subst b3.
  change (toLowerCase y3 ++ js "sb" ++ js "e")
    with (toLowerCase y3 ++ js "sbe") in K3 |- *.
  destruct (handleKeyDown (toLowerCase y3 ++ js "sbe") [k4]) as [b4 o4] eqn:K4.
  cbn [fst] in E4. subst b4.
  unfold handleKeyDown in K4. injection K4 as K4 <-.
  rewrite K4. rewrite !orb_true_r. reflexivity.
Qed.

Lemma sbef_opens_debug_panel_witness :
  keydowns (js "salam") [[0x53]; [0x62]; [0x45]; [0x66]] = (js "sbef", true).
Proof.
  apply (sbef_opens_debug_panel (js "salam") 0x53 0x62 0x45 0x66);
    reflexivity.
Defined.

End KeySequence.

(** ** The attached file *)

Section AttachedFile.

Lemma split_without (sep : N) (s : jsstring) :
  ~ In sep s -> split sep s = [s].
Proof.
  induction s as [|c s IH]; intros Hn; cbn [split]; [reflexivity|].
  assert (Hc : (c =? sep) = false).
  { apply N.eqb_neq. intros ->. apply Hn. now left. }
  rewrite Hc, IH; [reflexivity|]. intros Hin. apply Hn. now right.
Qed.

Lemma split_at_first (sep : N) (header rest : jsstring) :
  ~ In sep header ->
  split sep (header ++ sep :: rest) = header :: split sep rest.
Proof.
  induction header as [|c header IH]; intros Hn; cbn [List.app split].
  - now rewrite N.eqb_refl.
  - assert (Hc : (c =? sep) = false).
    { apply N.eqb_neq. intros ->. apply Hn. now left. }
    rewrite Hc, IH; [reflexivity|]. intros Hin. apply Hn. now right.
Qed.

(** X26. The attachment kept from a loaded file is the part of the reader's
    result between its first and second comma: for a data URL, whose header
    and base64 payload hold no comma, exactly the payload.  A result
    without any comma leaves the attachment undefined. *)
Theorem loaded_attachment_is_payload (result : jsstring) :
  (~ In comma result -> loaded_attachment result = None)
  /\ (forall header payload,
        result = header ++ [comma] ++ payload ->
        ~ In comma header -> ~ In comma payload ->
        loaded_attachment result = Some payload)
  /\ (forall header payload more,
        result = header ++ [comma] ++ payload ++ [comma] ++ more ->
        ~ In comma header -> ~ In comma payload ->
        loaded_attachment result = Some payload).
Proof.
  unfold loaded_attachment. split; [|split].
  - intros Hn. now rewrite (split_without _ _ Hn).
  - intros header payload -> Hh Hp. cbn [List.app].
    now rewrite (split_at_first _ _ _ Hh), (split_without _ _ Hp).
  - intros header payload more -> Hh Hp. cbn [List.app].
    now rewrite (split_at_first _ _ _ Hh), (split_at_first _ _ _ Hp).
Qed.

Lemma loaded_attachment_is_payload_witness :
  loaded_attachment (js "data:image/jpeg;base64,QUJD") = Some (js "QUJD").
Proof.
  destruct (loaded_attachment_is_payload (js "data:image/jpeg;base64,QUJD"))
    as (_ & H & _).
  apply (H (js "data:image/jpeg;base64") (js "QUJD")).
  - vm_compute. reflexivity.
  - vm_compute. intuition discriminate.
  - vm_compute. intuition discriminate.
Defined.

End AttachedFile.

(** ** The voice of an utterance *)

Section Voices.

Lemma includes_lower (s k : jsstring) :
  toLowerCase k = k -> includes s k = true ->
  includes (toLowerCase s) k = true.
Proof.
  intros Hk H. apply includes_spec in H as (pre & post & ->).
  apply includes_spec. exists (toLowerCase pre), (toLowerCase post).
  now rewrite !toLowerCase_app, Hk.
Qed.

Lemma code_lower (l : Language) : toLowerCase (code l) = code l.
Proof. destruct l; reflexivity. Qed.

Lemma find_none_iff {A} (f : A -> bool) (l : list A) :
  find f l = None <-> forall x, In x l -> f x = false.
Proof.
  split; [apply find_none|].
  induction l as [|x l IH]; intros H; simpl; [reflexivity|].
  rewrite (H x (or_introl eq_refl)). apply IH. intros y Hy. apply H. now right.
Qed.



(** X28. Without a voice chosen in the settings (the cell is null or the
    empty "auto" value), a voice that gets chosen comes from the browser's
    list and its language tag, lower-cased, contains the interface language
    code; the one exception is Azerbaijani, which may get a voice whose tag
    contains [tr].  When some voice has both the language code in its tag
    and [Google] in its name, the chosen voice is such a voice. *)
Theorem chooseVoice_auto_sound (setting : option jsstring) (l : Language)
    (voices : list Voice) (v : Voice) :
  truthy_opt setting = false ->
  tags_modelled voices ->
  chooseVoice setting (code l) voices = Some v ->
  In v voices
  /\ (includes (toLowerCase (lang v)) (code l) = true
      \/ (l = az /\ includes (lang v) (js "tr") = true))
  /\ ((exists g, In g voices /\ includes (lang g) (code l) = true
                 /\ includes (name g) (js "Google") = true) ->
      includes (lang v) (code l) = true
      /\ includes (name v) (js "Google") = true).
Proof.
  intros Hs _. unfold chooseVoice. rewrite Hs.
  destruct (find (fun voice => includes (lang voice) (code l)
                               && includes (name voice) (js "Google")) voices)
    as [g|] eqn:E1.
  - intros H; injection H as <-. apply find_some in E1 as [Hin Hg].
    apply andb_true_iff in Hg as [Hl Hn].
    split; [exact Hin|]. split; [|auto].
    left. apply includes_lower; [apply code_lower | exact Hl].
  - assert (Hnog : (exists g, In g voices /\ includes (lang g) (code l) = true
                              /\ includes (name g) (js "Google") = true)
                   -> False).
    { intros (g & Hin & Hl & Hn).
      pose proof (find_none _ _ E1 g Hin) as Hf. cbv beta in Hf.
      rewrite Hl, Hn in Hf. discriminate. }
    destruct (find (fun voice => includes (toLowerCase (lang voice)) (code l))
                voices) as [w|] eqn:E2.
    + intros H; injection H as <-. apply find_some in E2 as [Hin Hw].
      split; [exact Hin|]. split; [now left | intros Hg; now destruct Hnog].
    + destruct (str_eqb (code l) (js "az")) eqn:Eaz; [|discriminate].
      intros H. apply find_some in H as [Hin Hw].
      split; [exact Hin|]. split; [|intros Hg; now destruct Hnog].
      right. split; [|exact Hw]. destruct l; [reflexivity | | |];
        vm_compute in Eaz; discriminate.
Qed.

Lemma chooseVoice_auto_sound_witness :
  In (mkVoice (js "urn:ru") (js "Milena") (js "ru-RU")) someVoices
  /\ (includes (toLowerCase (lang (mkVoice (js "urn:ru") (js "Milena")
                                     (js "ru-RU")))) (code ru) = true
      \/ (ru = az /\ includes (lang (mkVoice (js "urn:ru") (js "Milena")
                                       (js "ru-RU"))) (js "tr") = true))
  /\ ((exists g, In g someVoices /\ includes (lang g) (code ru) = true
                 /\ includes (name g) (js "Google") = true) ->
      includes (lang (mkVoice (js "urn:ru") (js "Milena") (js "ru-RU")))
        (code ru) = true
      /\ includes (name (mkVoice (js "urn:ru") (js "Milena") (js "ru-RU")))
           (js "Google") = true).
Proof.
  apply (chooseVoice_auto_sound None ru someVoices).
  - reflexivity.
  - repeat constructor.
  - vm_compute. reflexivity.
Defined.

(** X29. For Azerbaijani without a settings choice: when no voice has [az]
    in its lower-cased tag, the utterance falls back to the first voice
    whose tag contains [tr], and gets no voice when there is none. *)
Theorem chooseVoice_az_fallback (setting : option jsstring)
    (voices : list Voice) :
  truthy_opt setting = false ->
  tags_modelled voices ->
  (forall v, In v voices -> includes (toLowerCase (lang v)) (js "az") = false) ->
  chooseVoice setting (js "az") voices
  = find (fun voice => includes (lang voice) (js "tr")) voices.
Proof.
  intros Hs _ Hno. unfold chooseVoice. rewrite Hs.
  assert (E1 : find (fun voice => includes (lang voice) (js "az")
                                  && includes (name voice) (js "Google")) voices
               = None).
  { apply find_none_iff. intros v Hv.
    destruct (includes (lang v) (js "az")) eqn:E; [|reflexivity].
    apply (includes_lower _ _ (code_lower az)) in E.
    change (code az) with (js "az") in E.
    rewrite (Hno v Hv) in E. discriminate. }
  assert (E2 : find (fun voice => includes (toLowerCase (lang voice)) (js "az"))
                 voices = None)
    by (apply find_none_iff; exact Hno).
  rewrite E1, E2. reflexivity.
Qed.

Lemma chooseVoice_az_fallback_witness :
  chooseVoice None (js "az") someVoices
  = find (fun voice => includes (lang voice) (js "tr")) someVoices.
Proof.
  apply (chooseVoice_az_fallback None someVoices).
  - reflexivity.
  - repeat constructor.
  - intros v Hv. vm_compute in Hv.
    repeat (destruct Hv as [<- | Hv]; [vm_compute; reflexivity|]).
    contradiction.
Defined.

Example az_gets_the_turkish_voice :
  option_map name (chooseVoice None (js "az") someVoices) = Some (js "Yelda").
Proof. vm_compute. reflexivity. Qed.

End Voices.

(** ** The intent classifier, continued *)

Section ClassifierMore.

(** X30. The classifier has no notion of context: on texts of modelled code
    points, once a text is classified as an image request, so is every text
    that contains it, whatever stands before or after (a negation, say). *)
Theorem isImageGenerationRequest_monotone (pre t post : jsstring) :
  forallb in_case_table (pre ++ t ++ post) = true ->
  isImageGenerationRequest t = true ->
  isImageGenerationRequest (pre ++ t ++ post) = true.
Proof.
  intros _ H. unfold isImageGenerationRequest in *.
  apply andb_true_iff in H as [Hk Hs]. apply andb_true_iff.
  rewrite existsb_includes in Hk, Hs. rewrite !existsb_includes.
  rewrite !toLowerCase_app.
  destruct Hk as (k & Hik & a & b & Ek). destruct Hs as (s & His & x & y & Es).
  split.
  - exists k. split; [exact Hik|]. rewrite Ek.
    exists (toLowerCase pre ++ a), (b ++ toLowerCase post).
    now rewrite <- !app_assoc.
  - exists s. split; [exact His|]. rewrite Es.
    exists (toLowerCase pre ++ x), (y ++ toLowerCase post).
    now rewrite <- !app_assoc.
Qed.

Lemma isImageGenerationRequest_monotone_witness :
  isImageGenerationRequest
    (js "please do not " ++ js "draw a picture" ++ js " of me") = true.
Proof.
  apply (isImageGenerationRequest_monotone (js "please do not ")
           (js "draw a picture") (js " of me")).
  - vm_compute. reflexivity.
  - vm_compute. reflexivity.
Defined.

End ClassifierMore.
